(** * MatGL training utilities, transformer and graph converter

    A shallow embedding of
      - [matgl/data/transformer.py]  (class [Normalizer]),
      - [matgl/graph/converters.py]  (method [GraphConverter.get_graph]),
      - [matgl/utils/training.py]    (classes [ModelLightningModule] and
        [PotentialLightningModule], function [xavier_init]),
    with the properties stated about them.

    Numbers.  The Python code computes with IEEE floating point.  Here a
    floating-point value is either an exact rational or the not-a-number
    sentinel; rounding, overflow and the infinities are not represented.
    The statements proved with these numbers do not depend on rounding;
    the round trips of the normalizer, which do, are stated on binary64
    numbers, computed as Python does.  Python exceptions are values of the type [exn]; the
    messages of library exceptions are abridged. *)

From stdpp Require Import base numbers list strings gmap.
From Stdlib Require Import QArith Qcanon Lqa Floats Uint63.

Local Open Scope Qc_scope.

(** ** Floating-point values: a rational or not-a-number *)

Module Float.

Inductive t : Type :=
  | Fin (q : Qc)
  | NaN.

Definition of_Z (z : Z) : t := Fin (Qc_of_Z z).
Definition of_nat (n : nat) : t := of_Z (Z.of_nat n).

Definition zero : t := Fin 0.

Definition lift2 (f : Qc → Qc → Qc) (x y : t) : t :=
  match x, y with
  | Fin a, Fin b => Fin (f a b)
  | _, _ => NaN
  end.

Definition add : t → t → t := lift2 Qcplus.
Definition sub : t → t → t := lift2 Qcminus.
Definition mul : t → t → t := lift2 Qcmult.

(** Division by zero has no rational result; IEEE gives an infinity or
    not-a-number, and the value is [NaN] here. *)
Definition div (x y : t) : t :=
  match x, y with
  | Fin a, Fin b => if decide (b = 0) then NaN else Fin (a / b)
  | _, _ => NaN
  end.

Definition neg (x : t) : t :=
  match x with Fin a => Fin (- a) | NaN => NaN end.

Definition Qcabs (a : Qc) : Qc := if decide (0 ≤ a) then a else - a.
Definition Qcmin (a b : Qc) : Qc := if decide (a ≤ b) then a else b.

Definition abs (x : t) : t :=
  match x with Fin a => Fin (Qcabs a) | NaN => NaN end.

(** [torch.min(a, b)]: elementwise minimum, not-a-number if either is. *)
Definition min : t → t → t := lift2 Qcmin.

Definition isnan (x : t) : bool :=
  match x with Fin _ => false | NaN => true end.

(** Python's [x >= 0]: false on not-a-number. *)
Definition ge0 (x : t) : bool :=
  match x with Fin a => bool_decide (0 ≤ a) | NaN => false end.

(** Python's [x != 0]: true on not-a-number. *)
Definition ne0 (x : t) : bool :=
  match x with Fin a => bool_decide (a ≠ 0) | NaN => true end.

Definition finite (x : t) : Prop :=
  match x with Fin _ => True | NaN => False end.

(** Below zero, and at or above zero; not-a-number is neither. *)
Definition negative (x : t) : Prop :=
  match x with Fin a => a < 0 | NaN => False end.
Definition non_negative (x : t) : Prop :=
  match x with Fin a => 0 ≤ a | NaN => False end.

Global Instance eq_dec : EqDecision t.
Proof. solve_decision. Defined.

Global Instance negative_dec x : Decision (negative x).
Proof. destruct x; simpl; apply _. Defined.

Global Instance non_negative_dec x : Decision (non_negative x).
Proof. destruct x; simpl; apply _. Defined.

Global Instance finite_dec x : Decision (finite x).
Proof. destruct x; simpl; apply _. Defined.

Definition sum (xs : list t) : t := foldr add zero xs.

(** Mean of a tensor's entries: sum over the count, [NaN] when empty
    (as [torch.mean] of an empty tensor). *)
Definition mean (xs : list t) : t := div (sum xs) (of_nat (length xs)).

End Float.

Abbreviation float := Float.t.
Abbreviation Fin := Float.Fin.
Abbreviation NaN := Float.NaN.

(** A one-dimensional tensor of floats. *)
Abbreviation tensor1 := (list float).

(** Rational literals: [rat n d] is the float [n/d]. *)
Definition rat (n : Z) (d : positive) : float := Fin (Q2Qc (n # d)).

(** A square root on the rationals, rounded down to six decimals; the
    examples are evaluated with it. *)
Definition sqrt6 (x : Qc) : Qc :=
  Q2Qc (Z.sqrt (Qnum x * 10 ^ 12 / Zpos (Qden x)) # 1000000).

(** ** Python exceptions and fallible results *)

(** [AssertionError msg got]: the message is the f-string [msg] with the
    value [got], if any, interpolated.  [Unmodelled] is no Python
    exception: it marks a library call outside what is modelled. *)
Inductive exn : Type :=
  | AssertionError (msg : string) (got : option float)
  | ValueError (msg : string)
  | IndexError (msg : string)
  | KeyError (key : string)
  | TypeError (msg : string)
  | ZeroDivisionError
  | RuntimeError (msg : string)
  | DGLError (msg : string)
  | AxisError
  | Unmodelled (what : string).

Inductive result (A : Type) : Type :=
  | Ok (a : A)
  | Raise (e : exn).
Arguments Ok {A} a.
Arguments Raise {A} e.

Global Instance result_ret : MRet result := λ A a, Ok a.
Global Instance result_bind : MBind result := λ A B k r,
  match r with
  | Ok a => k a
  | Raise e => Raise e
  end.

Global Instance result_fmap : FMap result := λ A B f r,
  match r with
  | Ok a => Ok (f a)
  | Raise e => Raise e
  end.

Global Instance exn_eq_dec : EqDecision exn.
Proof. solve_decision. Defined.

Global Instance result_eq_dec {A} `{EqDecision A} : EqDecision (result A).
Proof. solve_decision. Defined.

Definition is_ok {A} (r : result A) : Prop :=
  match r with Ok _ => True | Raise _ => False end.

(** The value of a result that is not an exception. *)
Definition get {A} (r : result A) : is_ok r → A :=
  match r with
  | Ok a => λ _, a
  | Raise _ => λ H, match H with end
  end.

(** ** [matgl/data/transformer.py] *)

Module Transformer.

(** [class Normalizer]: the two fields set by [__init__]. *)
Record Normalizer : Type := mkNormalizer {
  mean : float;
  std : float;
}.

(** [return (data - self.mean) / self.std] *)
Definition transform (self : Normalizer) (data : float) : float :=
  Float.div (Float.sub data (mean self)) (std self).

(** [return data * self.std + self.mean] *)
Definition inverse_transform (self : Normalizer) (data : float) : float :=
  Float.add (Float.mul data (std self)) (mean self).

(** On a tensor the scalars [mean] and [std] broadcast to every entry. *)
Definition transform_tensor (self : Normalizer) (data : tensor1) : tensor1 :=
  map (transform self) data.

Definition inverse_transform_tensor (self : Normalizer) (data : tensor1)
  : tensor1 :=
  map (inverse_transform self) data.

End Transformer.

(** The normalizer on binary64 numbers, the floats of Python: the same
    two expressions, every operation rounding to nearest as the machine
    does. *)
Module Binary64.

Definition transform (mean std data : PrimFloat.float) : PrimFloat.float :=
  PrimFloat.div (PrimFloat.sub data mean) std.

Definition inverse_transform (mean std data : PrimFloat.float)
  : PrimFloat.float :=
  PrimFloat.add (PrimFloat.mul data std) mean.

(** The rational number a finite float stands for; none for an infinity
    and for not-a-number. *)
Definition value (x : PrimFloat.float) : option Qc :=
  match Prim2SF x with
  | S754_zero _ => Some 0
  | S754_finite s m e =>
      Some (Q2Qc (inject_Z (cond_Zopp s (Zpos m)) * Qpower 2 e))
  | S754_infinity _ | S754_nan => None
  end.

(** The operation [op] on the floats [a] and [b] is exact: both are
    finite and the float [op a b] stands for the rational result [qop]. *)
Definition exact (op : PrimFloat.float → PrimFloat.float → PrimFloat.float)
    (qop : Qc → Qc → Qc) (a b : PrimFloat.float) : Prop :=
  ∃ qa qb : Qc,
    value a = Some qa ∧ value b = Some qb ∧ value (op a b) = Some (qop qa qb).

(** The float of a whole number of small magnitude, and of a quarter of
    it; both conversions are exact. *)
Definition of_Z (z : Z) : PrimFloat.float :=
  if (z <? 0)%Z then PrimFloat.opp (PrimFloat.of_uint63 (Uint63.of_Z (- z)))
  else PrimFloat.of_uint63 (Uint63.of_Z z).

Definition quarter (z : Z) : PrimFloat.float := PrimFloat.div (of_Z z) 4.

(** [abs(a - b) <= tolerance], with the tolerance [2 ** -48]. *)
Definition tolerance : PrimFloat.float := 0x1p-48%float.

Definition close (a b : PrimFloat.float) : bool :=
  PrimFloat.leb (PrimFloat.abs (PrimFloat.sub a b)) tolerance.

(** The quarters from -5 to 5, by their numerators. *)
Definition grid : list Z := seqZ (-20) 41.

(** [check j k i] for every mean [j/4], every standard deviation [k/4]
    but zero and every value [i/4] of the grid. *)
Definition on_grid (check : Z → Z → Z → bool) : bool :=
  forallb (λ j,
    forallb (λ k, (k =? 0)%Z || forallb (λ i, check j k i) grid) grid) grid.


Definition reverse_trip_close (j k i : Z) : bool :=
  close (transform (quarter j) (quarter k)
           (inverse_transform (quarter j) (quarter k) (quarter i)))
        (quarter i).

End Binary64.

(** ** The tensor and metric primitives used by [matgl/utils/training.py]

    Tensors of labels and predictions are kept flattened, as lists of
    their entries: every operation the training module applies to them is
    elementwise or a reduction over all entries. *)

(** [t[i]] on a Python tuple. *)
Definition getitem {A} (t : list A) (i : nat) : result A :=
  match t !! i with
  | Some x => Ok x
  | None => Raise (IndexError "tuple index out of range")
  end.

Module Torch.

(** [a op b] on tensors: entries are paired; a one-entry tensor
    broadcasts; other sizes do not match. *)
Definition broadcast2 (f : float → float → float) (a b : tensor1)
  : result tensor1 :=
  if decide (length a = length b) then Ok (zip_with f a b)
  else match a, b with
       | [x], _ => Ok (map (f x) b)
       | _, [y] => Ok (map (λ x, f x y) a)
       | _, _ =>
           Raise (RuntimeError
             "The size of tensor a must match the size of tensor b")
       end.

Definition div : tensor1 → tensor1 → result tensor1 := broadcast2 Float.div.
Definition sub : tensor1 → tensor1 → result tensor1 := broadcast2 Float.sub.

(** [-a], [torch.abs(a)], [torch.isnan(a)], [~mask] *)
Definition neg (a : tensor1) : tensor1 := map Float.neg a.
Definition abs (a : tensor1) : tensor1 := map Float.abs a.
Definition isnan (a : tensor1) : list bool := map Float.isnan a.
Definition invert (mask : list bool) : list bool := map negb mask.

(** [a[mask]] with a boolean mask: the entries of [a] where the mask is
    true; the mask must have the shape of [a]. *)
Fixpoint select (a : tensor1) (mask : list bool) : tensor1 :=
  match a, mask with
  | x :: a', b :: mask' =>
      if b then x :: select a' mask' else select a' mask'
  | _, _ => []
  end.

Definition mask_index (a : tensor1) (mask : list bool) : result tensor1 :=
  if decide (length a = length mask) then Ok (select a mask)
  else Raise (IndexError
         "The shape of the mask does not match the shape of the indexed tensor").

(** *** Loss functions of [torch.nn.functional]

    The keyword arguments are those of [self.loss_params].  With
    [reduction="none"] a loss returns a tensor, not a scalar; the
    reductions modelled are the scalar ones. *)

Inductive reduction : Type := Mean | Sum.

Record kwargs : Type := mkKwargs {
  kw_reduction : option reduction;   (* default: "mean" *)
  kw_delta : option float;           (* accepted by [huber_loss] only *)
}.

(** [{}] *)
Definition no_kwargs : kwargs :=
  {| kw_reduction := None; kw_delta := None |}.

Definition loss_function : Type := tensor1 → tensor1 → kwargs → result float.

Definition reduce (kw : kwargs) (xs : tensor1) : float :=
  match kw_reduction kw with
  | Some Sum => Float.sum xs
  | Some Mean | None => Float.mean xs
  end.

Definition square (x : float) : float := Float.mul x x.

(** [F.mse_loss(input, target, **kw)] *)
Definition mse_loss : loss_function := λ input target kw,
  match kw_delta kw with
  | Some _ =>
      Raise (TypeError "mse_loss() got an unexpected keyword argument 'delta'")
  | None =>
      d ← sub input target;
      Ok (reduce kw (map square d))
  end.

(** [F.l1_loss(input, target, **kw)] *)
Definition l1_loss : loss_function := λ input target kw,
  match kw_delta kw with
  | Some _ =>
      Raise (TypeError "l1_loss() got an unexpected keyword argument 'delta'")
  | None =>
      d ← sub input target;
      Ok (reduce kw (map Float.abs d))
  end.

(** One entry of the Huber loss: with [z = |d|],
    [0.5 z²] if [z < delta], else [delta (z - 0.5 delta)]. *)
Definition huber (delta : Qc) (d : float) : float :=
  match d with
  | Fin x =>
      let z := Float.Qcabs x in
      if decide (z < delta) then Fin (Q2Qc (1 # 2) * z * z)
      else Fin (delta * (z - Q2Qc (1 # 2) * delta))
  | NaN => NaN
  end.

(** [F.huber_loss(input, target, **kw)], [delta] defaulting to [1.0] and
    required to be positive. *)
Definition huber_loss : loss_function := λ input target kw,
  match default (Fin 1) (kw_delta kw) with
  | Fin delta =>
      if decide (0 < delta) then
        d ← sub input target;
        Ok (reduce kw (map (huber delta) d))
      else
        Raise (RuntimeError
          "huber_loss does not support non-positive values for delta.")
  | NaN =>
      Raise (RuntimeError
        "huber_loss does not support non-positive values for delta.")
  end.

(** *** Metrics of [torchmetrics]

    Calling a metric object on a batch returns the metric of that batch
    (and accumulates it into the object's running state, which the
    training code never reads back).  The two tensors must have the same
    shape. *)

Definition metric : Type := tensor1 → tensor1 → result float.

Definition same_shape (a b : tensor1) : result unit :=
  if decide (length a = length b) then Ok ()
  else Raise (RuntimeError
         "Predictions and targets are expected to have the same shape").

(** [torchmetrics.MeanAbsoluteError()] *)
Definition MeanAbsoluteError : metric := λ preds target,
  same_shape preds target;;
  Ok (Float.mean (map Float.abs (zip_with Float.sub preds target))).

(** Square root of a float, from a square root [sqrt] on the rationals:
    not-a-number below zero. *)
Definition fsqrt (sqrt : Qc → Qc) (x : float) : float :=
  match x with
  | Fin a => if decide (0 ≤ a) then Fin (sqrt a) else NaN
  | NaN => NaN
  end.

(** [torchmetrics.MeanSquaredError(squared=False)] *)
Definition MeanSquaredError_squared_False (sqrt : Qc → Qc) : metric :=
  λ preds target,
  same_shape preds target;;
  Ok (fsqrt sqrt (Float.mean (map square (zip_with Float.sub preds target)))).

(** [torch.zeros(1)] *)
Definition zeros_1 : float := Float.zero.

(** *** Two properties of a loss or of a metric that statements assume

    [sign_blind f]: negating the second tensor does not change the
    exception [f] raises.  [finite_on_finite f]: on finite tensors of one
    length, not empty, a value [f] returns is finite. *)
Definition sign_blind (f : tensor1 → tensor1 → result float) : Prop :=
  ∀ l p e, f l p = Raise e → f l (neg p) = Raise e.

Definition finite_on_finite (f : tensor1 → tensor1 → result float) : Prop :=
  ∀ l p v,
    l ≠ [] → length l = length p →
    Forall Float.finite l → Forall Float.finite p →
    f l p = Ok v → Float.finite v.

(** The "symbreak" policy in the specification's words: entry by entry,
    the minimum of the loss against the prediction and against its
    negation, reduced (by the mean) afterwards. *)
Definition symbreak_elementwise_spec (entry_loss : float → float → float)
    (labels_3 preds_3 : tensor1) : float :=
  Float.mean
    (zip_with (λ l p, Float.min (entry_loss l p) (entry_loss l (Float.neg p)))
       labels_3 preds_3).

(** One entry of the mean absolute error. *)
Definition l1_entry (l p : float) : float := Float.abs (Float.sub l p).

End Torch.

(** ** [matgl/utils/training.py] *)

Module Training.

Import Torch.

(** *** [class ModelLightningModule] *)

Module ModelLightningModule.

(** The attributes [__init__] sets ([model], [optimizer] and
    [scheduler] are opaque objects stored as they are given). *)
Record t : Type := mk {
  mae : metric;
  rmse : metric;
  data_mean : float;
  data_std : float;
  lr : float;
  decay_steps : Z;
  decay_alpha : float;
  loss : loss_function;
  sync_dist : bool;
}.

Definition __init__ (sqrt : Qc → Qc)
    (data_mean data_std : float) (loss : string)
    (lr : float) (decay_steps : Z) (decay_alpha : float)
    (sync_dist : bool) : result t :=
  Ok {| mae := MeanAbsoluteError;
        rmse := MeanSquaredError_squared_False sqrt;
        data_mean := data_mean;
        data_std := data_std;
        lr := lr;
        decay_steps := decay_steps;
        decay_alpha := decay_alpha;
        loss := if decide (loss = "mse_loss") then mse_loss else l1_loss;
        sync_dist := sync_dist |}.

End ModelLightningModule.

(** *** [class PotentialLightningModule] *)

Module PotentialLightningModule.

(** The attributes [__init__] sets.  Of the wrapped [Potential] only
    the flags [self.model.calc_stresses] and [self.model.calc_site_wise]
    are read by this module. *)
Record t : Type := mk {
  mae : metric;
  rmse : metric;
  data_mean : float;
  data_std : float;
  energy_weight : float;
  force_weight : float;
  stress_weight : float;
  site_wise_weight : float;
  lr : float;
  decay_steps : Z;
  decay_alpha : float;
  calc_stresses : bool;
  calc_site_wise : bool;
  loss : loss_function;
  loss_params : kwargs;
  sync_dist : bool;
  allow_missing_labels : bool;
  site_wise_target : option string;
}.

(** [assert w >= 0, msg] *)
Definition assert_ge0 (w : float) (msg : string) : result unit :=
  if Float.ge0 w then Ok () else Raise (AssertionError msg (Some w)).

Definition __init__ (sqrt : Qc → Qc)
    (energy_weight force_weight stress_weight site_wise_weight : float)
    (data_mean data_std : float) (loss : string)
    (loss_params : option kwargs)
    (lr : float) (decay_steps : Z) (decay_alpha : float)
    (sync_dist allow_missing_labels : bool)
    (site_wise_target : option string) : result t :=
  assert_ge0 energy_weight
    "energy_weight has to be >=0. Got {energy_weight}!";;
  assert_ge0 force_weight
    "force_weight has to be >=0. Got {force_weight}!";;
  assert_ge0 stress_weight
    "stress_weight has to be >=0. Got {stress_weight}!";;
  assert_ge0 site_wise_weight
    "site_wise_weight has to be >=0. Got {site_wise_weight}!";;
  Ok {| mae := MeanAbsoluteError;
        rmse := MeanSquaredError_squared_False sqrt;
        data_mean := data_mean;
        data_std := data_std;
        energy_weight := energy_weight;
        force_weight := force_weight;
        stress_weight := stress_weight;
        site_wise_weight := site_wise_weight;
        lr := lr;
        decay_steps := decay_steps;
        decay_alpha := decay_alpha;
        calc_stresses := Float.ne0 stress_weight;
        calc_site_wise := Float.ne0 site_wise_weight;
        loss := if decide (loss = "mse_loss") then mse_loss
                else if decide (loss = "huber_loss") then huber_loss
                else l1_loss;
        loss_params := default no_kwargs loss_params;
        sync_dist := sync_dist;
        allow_missing_labels := allow_missing_labels;
        site_wise_target := site_wise_target |}.

(** **** [on_load_checkpoint]

    A state dict maps parameter names to tensors (of any type [V]); a
    checkpoint maps names to entries, one of which, under
    ["state_dict"], is the saved state dict. *)
Section Checkpoint.
Context {V : Type}.

Inductive entry : Type :=
  | StateDict (sd : gmap string V)
  | Other (payload : string).

(** [checkpoint["state_dict"]] *)
Definition get_state_dict (checkpoint : gmap string entry)
  : result (gmap string V) :=
  match checkpoint !! "state_dict" with
  | Some (StateDict sd) => Ok sd
  | Some (Other _) =>
      Raise (TypeError "argument of type is not iterable")
  | None => Raise (KeyError "state_dict")
  end.

(** One iteration of the loop, for [key]. *)
Definition backfill_key (state_dict : gmap string V) (key : string)
    (checkpoint : gmap string entry) : result (gmap string entry) :=
  sd ← get_state_dict checkpoint;
  if decide (is_Some (sd !! key)) then Ok checkpoint
  else
    match state_dict !! key with
    | Some v => Ok (<["state_dict" := StateDict (<[key := v]> sd)]> checkpoint)
    | None => Raise (KeyError key)
    end.

(** [for key in self.state_dict().keys(): ...], over the keys in
    the order [keys]; the checkpoint is updated in place and is the
    result here. *)
Definition backfill (state_dict : gmap string V) (keys : list string)
    (checkpoint : gmap string entry) : result (gmap string entry) :=
  foldl (λ acc key, acc ≫= backfill_key state_dict key)
        (Ok checkpoint) keys.

Definition on_load_checkpoint (state_dict : gmap string V)
    (checkpoint : gmap string entry) : result (gmap string entry) :=
  backfill state_dict (map_to_list state_dict).*1 checkpoint.

End Checkpoint.
Arguments entry : clear implicits.

(** **** [loss_fn]

    [labels] and [preds] are the tuples (energy, force, stress,
    optionally site-wise); the returned dictionary is a record with a
    field per key. *)
Record results : Type := mkResults {
  Total_Loss : float;
  Energy_MAE : float;
  Force_MAE : float;
  Stress_MAE : float;
  Site_Wise_MAE : float;
  Energy_RMSE : float;
  Force_RMSE : float;
  Stress_RMSE : float;
  Site_Wise_RMSE : float;
}.

(** The block [if self.model.calc_stresses: ...]: the updated
    [total_loss], [s_mae] and [s_rmse]. *)
Definition stress_block (self : t) (loss : loss_function)
    (labels preds : list tensor1) (total_loss : float)
    : result (float * float * float) :=
  if calc_stresses self then
    labels_2 ← getitem labels 2;
    preds_2 ← getitem preds 2;
    s_loss ← loss labels_2 preds_2 (loss_params self);
    s_mae ← mae self labels_2 preds_2;
    s_rmse ← rmse self labels_2 preds_2;
    Ok (Float.add total_loss (Float.mul (stress_weight self) s_loss),
        s_mae, s_rmse)
  else Ok (total_loss, zeros_1, zeros_1).

(** The selection of [labels_3] and [preds_3]. *)
Definition site_wise_inputs (self : t) (labels preds : list tensor1)
    : result (tensor1 * tensor1) :=
  if allow_missing_labels self then
    labels3 ← getitem labels 3;
    let valid_values := invert (isnan labels3) in
    labels_3 ← mask_index labels3 valid_values;
    preds3 ← getitem preds 3;
    preds_3 ← mask_index preds3 valid_values;
    Ok (labels_3, preds_3)
  else
    labels_3 ← getitem labels 3;
    preds_3 ← getitem preds 3;
    Ok (labels_3, preds_3).

(** The three assignments under [if len(labels_3) > 0:]:
    [m_loss], [m_mae] and [m_rmse]. *)
Definition site_wise_terms (self : t) (loss : loss_function)
    (labels_3 preds_3 : tensor1) : result (float * float * float) :=
  if decide (site_wise_target self = Some "symbreak") then
    a ← loss labels_3 preds_3 (loss_params self);
    b ← loss labels_3 (neg preds_3) (loss_params self);
    let m_loss := Float.min a b in
    a ← mae self labels_3 preds_3;
    b ← mae self labels_3 (neg preds_3);
    let m_mae := Float.min a b in
    a ← rmse self labels_3 preds_3;
    b ← rmse self labels_3 (neg preds_3);
    let m_rmse := Float.min a b in
    Ok (m_loss, m_mae, m_rmse)
  else
    let labels_3 :=
      if decide (site_wise_target self = Some "absolute")
      then abs labels_3 else labels_3 in
    m_loss ← loss labels_3 preds_3 (loss_params self);
    m_mae ← mae self labels_3 preds_3;
    m_rmse ← rmse self labels_3 preds_3;
    Ok (m_loss, m_mae, m_rmse).

(** The block [if self.model.calc_site_wise: ...]: the updated
    [total_loss], [m_mae] and [m_rmse]. *)
Definition site_wise_block (self : t) (loss : loss_function)
    (labels preds : list tensor1) (total_loss : float)
    : result (float * float * float) :=
  if calc_site_wise self then
    '(labels_3, preds_3) ← site_wise_inputs self labels preds;
    if decide (0 < length labels_3)%nat then
      '(m_loss, m_mae, m_rmse) ← site_wise_terms self loss labels_3 preds_3;
      Ok (Float.add total_loss (Float.mul (site_wise_weight self) m_loss),
          m_mae, m_rmse)
    else Ok (total_loss, zeros_1, zeros_1)
  else Ok (total_loss, zeros_1, zeros_1).

(** [self.loss], as opposed to the argument [loss] of [loss_fn]. *)
Definition self_loss (self : t) : loss_function := loss self.

Definition loss_fn (self : t) (loss : loss_function)
    (labels preds : list tensor1) (num_atoms : tensor1)
    : result results :=
  labels_0 ← getitem labels 0;
  e_label ← div labels_0 num_atoms;
  preds_0 ← getitem preds 0;
  e_pred ← div preds_0 num_atoms;
  e_loss ← self_loss self e_label e_pred (loss_params self);
  labels_1 ← getitem labels 1;
  preds_1 ← getitem preds 1;
  f_loss ← self_loss self labels_1 preds_1 (loss_params self);
  e_mae ← mae self e_label e_pred;
  f_mae ← mae self labels_1 preds_1;
  e_rmse ← rmse self e_label e_pred;
  f_rmse ← rmse self labels_1 preds_1;
  let total_loss :=
    Float.add (Float.mul (energy_weight self) e_loss)
              (Float.mul (force_weight self) f_loss) in
  '(total_loss, s_mae, s_rmse) ← stress_block self loss labels preds total_loss;
  '(total_loss, m_mae, m_rmse) ← site_wise_block self loss labels preds total_loss;
  Ok {| Total_Loss := total_loss;
        Energy_MAE := e_mae;
        Force_MAE := f_mae;
        Stress_MAE := s_mae;
        Site_Wise_MAE := m_mae;
        Energy_RMSE := e_rmse;
        Force_RMSE := f_rmse;
        Stress_RMSE := s_rmse;
        Site_Wise_RMSE := m_rmse |}.

(** The same module with [self.model.calc_site_wise] off: its [loss_fn]
    is the loss without the site-wise term. *)
Definition without_site_wise (self : t) : t :=
  {| mae := mae self;
     rmse := rmse self;
     data_mean := data_mean self;
     data_std := data_std self;
     energy_weight := energy_weight self;
     force_weight := force_weight self;
     stress_weight := stress_weight self;
     site_wise_weight := site_wise_weight self;
     lr := lr self;
     decay_steps := decay_steps self;
     decay_alpha := decay_alpha self;
     calc_stresses := calc_stresses self;
     calc_site_wise := false;
     loss := self_loss self;
     loss_params := loss_params self;
     sync_dist := sync_dist self;
     allow_missing_labels := allow_missing_labels self;
     site_wise_target := site_wise_target self |}.

Global Instance results_eq_dec : EqDecision results.
Proof. solve_decision. Defined.

End PotentialLightningModule.

(** *** [xavier_init]

    A model is the list [model.named_parameters()] of parameter names
    with the shapes of their tensors.  The initialisers draw random
    numbers; what is recorded for a parameter is the initialiser called
    on its [data] and the arguments of the call. *)

Inductive init : Type :=
  | fill_ (value : float)
  | uniform_ (low high : float)
  | normal_ (mean std : float)
  | xavier_uniform_ (gain : float)
  | xavier_normal_ (gain : float).

Global Instance init_eq_dec : EqDecision init.
Proof. solve_decision. Defined.

(** [s.endswith(suffix)] *)
Definition endswith (s suffix : string) : bool :=
  let n := String.length s in
  let m := String.length suffix in
  bool_decide (m ≤ n)%nat && bool_decide (String.substring (n - m) m s = suffix).

(** Python's [x / y] on floats. *)
Definition truediv (x y : float) : result float :=
  match y with
  | Fin b => if decide (b = 0) then Raise ZeroDivisionError
             else Ok (Float.div x y)
  | NaN => Ok NaN
  end.

(** [gain * math.sqrt(6) / math.sqrt(2 * param.shape[0])] *)
Definition bound (sqrt : Qc → Qc) (gain : float) (shape : list nat)
  : result float :=
  fan ← getitem shape 0;
  truediv (Float.mul gain (fsqrt sqrt (Float.of_nat 6)))
          (fsqrt sqrt (Float.of_nat (2 * fan))).

(** The closed form [gain * sqrt(6) / sqrt(2 * fan)]. *)
Definition closed_form_bound (sqrt : Qc → Qc) (gain : float) (fan : nat)
  : float :=
  Float.div (Float.mul gain (fsqrt sqrt (Float.of_nat 6)))
            (fsqrt sqrt (Float.of_nat (2 * fan))).

(** The body of the loop, for one parameter. *)
Definition init_param (sqrt : Qc → Qc) (gain : float) (distribution : string)
    (init_fn : float → init) (name : string) (shape : list nat)
    : result init :=
  if endswith name ".bias" then Ok (fill_ Float.zero)
  else if decide (length shape < 2)%nat then
    bound ← bound sqrt gain shape;
    if decide (distribution = "uniform")
    then Ok (uniform_ (Float.neg bound) bound)
    else Ok (normal_ Float.zero (Float.mul bound bound))
  else Ok (init_fn gain).

Definition xavier_init (sqrt : Qc → Qc) (model : list (string * list nat))
    (gain : float) (distribution : string)
    : result (list (string * init)) :=
  init_fn ←
    (if decide (distribution = "uniform") then Ok xavier_uniform_
     else if decide (distribution = "normal") then Ok xavier_normal_
     else Raise (ValueError ("Invalid distribution: " +:+ distribution)));
  mapM (λ p, i ← init_param sqrt gain distribution init_fn p.1 p.2;
             Ok (p.1, i)) model.

End Training.

(** ** Arrays with a shape, and the graph of [dgl]

    An n-dimensional array (a [numpy] array or a [torch] tensor) is its
    shape and its entries in row-major order. *)

Module Array.

Record t : Type := mk {
  shape : list nat;
  data : list float;
}.

Definition size_of (shape : list nat) : nat := foldr Nat.mul 1%nat shape.

(** The entries are as many as the shape says. *)
Definition wf (a : t) : Prop := length (data a) = size_of (shape a).

Global Instance eq_dec : EqDecision t.
Proof. solve_decision. Defined.

Global Instance wf_dec a : Decision (wf a).
Proof. unfold wf. apply _. Defined.

(** [l] cut into [n] consecutive pieces of [k] entries. *)
Fixpoint chunks {A} (n k : nat) (l : list A) : list (list A) :=
  match n with
  | O => []
  | S n' => take k l :: chunks n' k (drop k l)
  end.

(** [a[i]]: the [i]-th sub-array along the first axis. *)
Definition index0 (a : t) (i : nat) : result t :=
  match shape a with
  | [] => Raise (IndexError "too many indices for array")
  | d :: rest =>
      if decide (i < d)%nat then
        Ok {| shape := rest;
              data := take (size_of rest) (drop (i * size_of rest) (data a)) |}
      else Raise (IndexError "index is out of bounds for axis 0")
  end.

(** [np.repeat(a, n, axis=0)]: every sub-array along the first axis,
    [n] times in a row. *)
Definition repeat0 (a : t) (n : nat) : result t :=
  match shape a with
  | [] => Raise AxisError
  | d :: rest =>
      Ok {| shape := (d * n)%nat :: rest;
            data := chunks d (size_of rest) (data a)
                      ≫= λ c, concat (replicate n c) |}
  end.

Definition dot (u v : list float) : float :=
  Float.sum (zip_with Float.mul u v).

(** The columns of a [k]-by-[m] matrix given by its entries. *)
Definition columns (k m : nat) (l : list float) : list (list float) :=
  (λ j, (λ i, default Float.zero (l !! (i * m + j)%nat)) <$> seq 0 k)
    <$> seq 0 m.

Definition size_mismatch : exn :=
  RuntimeError "mat1 and mat2 shapes cannot be multiplied".

(** [torch.matmul(a, b)] for operands of one or two dimensions: the dot
    product, the matrix-vector products and the matrix product.  An
    operand of three or more dimensions makes it a batched product,
    which is not modelled. *)
Definition matmul (a b : t) : result t :=
  match shape a, shape b with
  | [], _ | _, [] =>
      Raise (RuntimeError "both arguments to matmul need to be at least 1D")
  | [k], [k'] =>
      if decide (k = k') then Ok {| shape := []; data := [dot (data a) (data b)] |}
      else Raise size_mismatch
  | [n; k], [k'] =>
      if decide (k = k') then
        Ok {| shape := [n];
              data := (λ r, dot r (data b)) <$> chunks n k (data a) |}
      else Raise size_mismatch
  | [k], [k'; m] =>
      if decide (k = k') then
        Ok {| shape := [m];
              data := dot (data a) <$> columns k' m (data b) |}
      else Raise size_mismatch
  | [n; k], [k'; m] =>
      if decide (k = k') then
        Ok {| shape := [n; m];
              data := chunks n k (data a)
                        ≫= λ r, dot r <$> columns k' m (data b) |}
      else Raise size_mismatch
  | _, _ => Raise (Unmodelled "batched matmul")
  end.

End Array.

Abbreviation ndarray := Array.t.

Module DGL.

(** A graph: its number of nodes, its edges as the two lists of end
    points, and the node and edge feature dictionaries. *)
Record DGLGraph : Type := mk {
  number_of_nodes : nat;
  edges_src : list nat;
  edges_dst : list nat;
  ndata : gmap string ndarray;
  edata : gmap string ndarray;
}.

Global Instance DGLGraph_eq_dec : EqDecision DGLGraph.
Proof. solve_decision. Defined.

Definition num_nodes (g : DGLGraph) : nat := number_of_nodes g.
Definition num_edges (g : DGLGraph) : nat := length (edges_src g).

(** [dgl.graph((u, v))]: as many nodes as the largest end point
    requires, none for no edge. *)
Definition graph (u v : list nat) : result DGLGraph :=
  if decide (length u = length v) then
    Ok {| number_of_nodes :=
            match u ++ v with
            | [] => 0%nat
            | ids => S (max_list ids)
            end;
          edges_src := u;
          edges_dst := v;
          ndata := ∅;
          edata := ∅ |}
  else Raise (DGLError "The two endpoint arrays must have the same length.").

(** A feature already stored for the nodes grows by zero rows. *)
Definition pad_rows (n : nat) (a : ndarray) : ndarray :=
  match Array.shape a with
  | [] => a
  | d :: rest =>
      {| Array.shape := (d + n)%nat :: rest;
         Array.data := Array.data a
                       ++ replicate (n * Array.size_of rest) Float.zero |}
  end.

(** [g.add_nodes(num)] *)
Definition add_nodes (g : DGLGraph) (num : Z) : result DGLGraph :=
  if decide (num = 0)%Z then Ok g
  else if decide (0 < num)%Z then
    Ok {| number_of_nodes := (number_of_nodes g + Z.to_nat num)%nat;
          edges_src := edges_src g;
          edges_dst := edges_dst g;
          ndata := pad_rows (Z.to_nat num) <$> ndata g;
          edata := edata g |}
  else Raise (AssertionError "Number of new nodes should be larger than one."
                None).

Definition rows_match (a : ndarray) (n : nat) : bool :=
  match Array.shape a with
  | d :: _ => bool_decide (d = n)
  | [] => false
  end.

(** [g.edata[key] = value] *)
Definition set_edata (g : DGLGraph) (key : string) (value : ndarray)
  : result DGLGraph :=
  if rows_match value (num_edges g) then
    Ok {| number_of_nodes := number_of_nodes g;
          edges_src := edges_src g;
          edges_dst := edges_dst g;
          ndata := ndata g;
          edata := <[key := value]> (edata g) |}
  else Raise (DGLError "Expect number of features to match number of edges.").

(** [g.ndata[key] = value] *)
Definition set_ndata (g : DGLGraph) (key : string) (value : ndarray)
  : result DGLGraph :=
  if rows_match value (num_nodes g) then
    Ok {| number_of_nodes := number_of_nodes g;
          edges_src := edges_src g;
          edges_dst := edges_dst g;
          ndata := <[key := value]> (ndata g);
          edata := edata g |}
  else Raise (DGLError "Expect number of features to match number of nodes.").

End DGL.

(** ** [matgl/graph/converters.py] *)

Module Converters.

Import DGL.

(** A site of the structure: [site.specie.symbol] is what is read. *)
Record site : Type := mkSite {
  specie_symbol : string;
}.

Global Instance site_eq_dec : EqDecision site.
Proof. solve_decision. Defined.

(** The entries of a bond index array are site indices of the structure. *)
Definition valid_site_indices (structure : list site) (ids : list nat)
  : Prop :=
  Forall (λ i, (i < length structure)%nat) ids.

(** [element_types.index(symbol)] *)
Definition index (element_types : list string) (symbol : string)
  : result nat :=
  match list_find (λ x, x = symbol) element_types with
  | Some (i, _) => Ok i
  | None => Raise (ValueError (symbol +:+ " is not in list"))
  end.

(** [np.hstack(rows)] of one-entry rows. *)
Definition hstack (rows : list nat) : result ndarray :=
  match rows with
  | [] => Raise (ValueError "need at least one array to concatenate")
  | _ => Ok {| Array.shape := [length rows];
               Array.data := Float.of_nat <$> rows |}
  end.

(** [state_attr = [0.0, 0.0]] *)
Definition default_state_attr : list float := [Float.zero; Float.zero].

Definition get_graph (structure : list site) (src_id dst_id : list nat)
    (images lattice_matrix Z : ndarray) (element_types : list string)
    (cart_coords : ndarray) : result (DGLGraph * list float) :=
  let u := src_id in
  let v := dst_id in
  g ← graph u v;
  (* isolated atoms without bonds *)
  let n_missing_node := (Z.of_nat (length structure) - Z.of_nat (num_nodes g))%Z in
  g ← add_nodes g n_missing_node;
  g ← set_edata g "pbc_offset" images;
  lattice ← Array.repeat0 lattice_matrix (num_edges g);
  g ← set_edata g "lattice" lattice;
  g ← set_ndata g "attr" Z;
  types ← mapM (λ s, index element_types (specie_symbol s)) structure;
  node_type ← hstack types;
  g ← set_ndata g "node_type" node_type;
  g ← set_ndata g "pos" cart_coords;
  let state_attr := default_state_attr in
  lattice_0 ← Array.index0 lattice_matrix 0;
  pbc_offshift ← Array.matmul images lattice_0;
  g ← set_edata g "pbc_offshift" pbc_offshift;
  Ok (g, state_attr).

(** The shift in the specification's words: the product of the image
    offsets with the first row of the lattice matrix [lattice], the
    3-by-3 matrix of the cell. *)
Definition offshift_first_row_spec (images lattice : ndarray)
  : result ndarray :=
  first_row ← Array.index0 lattice 0;
  Array.matmul images first_row.

End Converters.

(** ** The rest of [matgl/data/transformer.py] *)

Module NormalizerData.

Import Transformer Torch.

(** [torch.mean(data)] *)
Definition torch_mean (data : tensor1) : float := Float.mean data.

(** [torch.std(data)]: the square root of the unbiased variance, the sum
    of squared deviations over [max(0, n - 1)]. *)
Definition torch_std (sqrt : Qc → Qc) (data : tensor1) : float :=
  fsqrt sqrt
    (Float.div
       (Float.sum (map (λ x, square (Float.sub x (Float.mean data))) data))
       (Float.of_nat (length data - 1))).

(** [Normalizer.from_data]:
    [return Normalizer(torch.mean(data), torch.std(data))] *)
Definition from_data (sqrt : Qc → Qc) (data : tensor1) : Normalizer :=
  mkNormalizer (torch_mean data) (torch_std sqrt data).

End NormalizerData.

(** ** The steps of [matgl/utils/training.py] *)

Module TrainingSteps.

Import Torch Training.

(** [torch.reshape(x, labels.size())] on flattened tensors: the entries
    of [x], which must be as many as the size asks. *)
Definition reshape (x : tensor1) (size : nat) : result tensor1 :=
  if decide (length x = size) then Ok x
  else Raise (RuntimeError "shape is invalid for input of this size").

(** [a, b, ... = t]: unpacking a tuple into [expected] names. *)
Definition unpack {A} (expected : nat) (t : list A) : result (list A) :=
  if decide (length t = expected) then Ok t
  else if decide (length t < expected)%nat
       then Raise (ValueError "not enough values to unpack")
       else Raise (ValueError "too many values to unpack").

(** *** [ModelLightningModule] *)

Module Model.

Record results : Type := mkResults {
  Total_Loss : float;
  MAE : float;
  RMSE : float;
}.

Global Instance results_eq_dec : EqDecision results.
Proof. solve_decision. Defined.

(** [preds * self.data_std + self.data_mean] *)
Definition rescale (self : ModelLightningModule.t) (preds : tensor1)
  : tensor1 :=
  map (λ p, Float.add (Float.mul p (ModelLightningModule.data_std self))
                      (ModelLightningModule.data_mean self)) preds.

(** [ModelLightningModule.loss_fn] *)
Definition loss_fn (self : ModelLightningModule.t) (loss : loss_function)
    (labels preds : tensor1) : result results :=
  scaled_pred ← reshape (rescale self preds) (length labels);
  total_loss ← loss labels scaled_pred no_kwargs;
  mae ← ModelLightningModule.mae self labels scaled_pred;
  rmse ← ModelLightningModule.rmse self labels scaled_pred;
  Ok {| Total_Loss := total_loss; MAE := mae; RMSE := rmse |}.

(** [ModelLightningModule.step], from the labels of the batch and the
    predictions [self(...)] returned for it: the results and
    [preds.numel()]. *)
Definition step (self : ModelLightningModule.t) (labels preds : tensor1)
  : result (results * nat) :=
  results ← loss_fn self (ModelLightningModule.loss self) labels preds;
  Ok (results, length preds).

End Model.

(** *** [PotentialLightningModule] *)

Module Potential.

Import PotentialLightningModule.

(** [PotentialLightningModule.forward], from the tuple [output] that
    [self.model(...)] returned: it is unpacked into five names with
    site-wise prediction and into four without. *)
Definition forward (self : t) (output : list tensor1)
  : result (list tensor1) :=
  if calc_site_wise self then unpack 5 output else unpack 4 output.

(** A batch [(g, l_g, state_attr, *targets)]: of the graph only
    [g.batch_num_nodes()] is read. *)
Record batch : Type := mkBatch {
  batch_num_nodes : tensor1;
  targets : list tensor1;
}.

(** [len(t[0])] entries of the first tensor: [preds[0].numel()]. *)
Definition numel_0 (t : list tensor1) : result nat :=
  length <$> getitem t 0.

(** [PotentialLightningModule.step], [output] being what [self.model]
    returns for the graphs of the batch. *)
Definition step (self : t) (b : batch) (output : list tensor1)
  : result (results * nat) :=
  '(preds, labels) ←
    (if calc_site_wise self then
       labels ← unpack 4 (targets b);
       out ← forward self output;
       match out with
       | [e; f; s; _; m] => Ok ([e; f; s; m], labels)
       | _ => Raise (ValueError "not enough values to unpack")
       end
     else
       labels ← unpack 3 (targets b);
       out ← forward self output;
       match out with
       | [e; f; s; _] => Ok ([e; f; s], labels)
       | _ => Raise (ValueError "not enough values to unpack")
       end);
  let num_atoms := batch_num_nodes b in
  results ← loss_fn self (self_loss self) labels preds num_atoms;
  batch_size ← numel_0 preds;
  Ok (results, batch_size).

End Potential.

End TrainingSteps.

(** ** Further properties of a loss that statements assume

    [not_negative x]: [x] is not below zero (it may be not-a-number).
    [nonneg_loss f]: a value [f] returns is not below zero.
    [nan_sensitive f]: on tensors of one length, the first holding a
    not-a-number, a value [f] returns is not-a-number. *)

Module LossAssumptions.

Definition not_negative (x : float) : Prop :=
  match x with Fin q => 0 ≤ q | NaN => True end.

Definition nonneg_loss (f : tensor1 → tensor1 → result float) : Prop :=
  ∀ l p v, f l p = Ok v → not_negative v.

Definition nan_sensitive (f : tensor1 → tensor1 → result float) : Prop :=
  ∀ l p v, length l = length p → NaN ∈ l → f l p = Ok v → v = NaN.

End LossAssumptions.

(** ** Inputs on which the statements are evaluated *)

Module Examples.

Import Training Torch.

(** A potential module with the mean absolute error as loss, unit
    weights on energy, force and site-wise terms, missing labels allowed
    and the "symbreak" target. *)
Definition symbreak_module : result PotentialLightningModule.t :=
  PotentialLightningModule.__init__ sqrt6
    (rat 1 1) (rat 1 1) (rat 0 1) (rat 1 1)
    (rat 0 1) (rat 1 1) "l1_loss" None (rat 1 1000) 1000 (rat 1 100)
    false true (Some "symbreak").

Definition symbreak_self : PotentialLightningModule.t := get symbreak_module I.

(** A batch of one structure of two atoms, its energy, forces and stress
    predicted exactly; [site_wise] are the two site-wise entries. *)
Definition two_atoms (site_wise : tensor1) : list tensor1 :=
  [ [rat (-7) 2]; replicate 6 (rat 1 10); replicate 9 (rat 0 1); site_wise ].

Definition num_atoms_two : tensor1 := [rat 2 1].

(** [loss_fn] as [step] calls it, on the module [m]. *)
Definition run_loss_fn (m : result PotentialLightningModule.t)
    (labels preds : list tensor1) (num_atoms : tensor1)
  : result PotentialLightningModule.results :=
  self ← m;
  PotentialLightningModule.loss_fn self
    (PotentialLightningModule.self_loss self) labels preds num_atoms.

(** A live state dict with a parameter the saved one lacks. *)
Definition live_state_dict : gmap string Z :=
  {[ "layer.weight" := 1%Z; "layer.bias" := 2%Z; "readout.scale" := 3%Z ]}.

Definition saved_checkpoint : gmap string (PotentialLightningModule.entry Z) :=
  {[ "epoch" := PotentialLightningModule.Other "7";
     "state_dict" := PotentialLightningModule.StateDict
                       {[ "layer.weight" := 10%Z; "layer.bias" := 20%Z ]} ]}.

(** Water in a cell of edges 1, 2 and 3 along the axes: three sites,
    one bond between the two hydrogens in each direction, across the cell
    boundary, and an oxygen in no bond. *)
Definition water : list Converters.site :=
  [Converters.mkSite "H"; Converters.mkSite "H"; Converters.mkSite "O"].

Definition ints (shape : list nat) (entries : list Z) : ndarray :=
  {| Array.shape := shape; Array.data := Float.of_Z <$> entries |}.

Definition water_src : list nat := [0; 1]%nat.
Definition water_dst : list nat := [1; 0]%nat.
Definition water_images : ndarray := ints [2; 3]%nat [1; 0; 0;  0; 1; 1]%Z.
Definition water_lattice : ndarray :=
  ints [1; 3; 3]%nat [1; 0; 0;  0; 2; 0;  0; 0; 3]%Z.
Definition water_Z : ndarray := ints [3; 2]%nat [1; 0;  1; 0;  0; 1]%Z.
Definition water_cart_coords : ndarray :=
  ints [3; 3]%nat [0; 0; 0;  1; 0; 0;  0; 1; 0]%Z.

Definition water_graph : result (DGL.DGLGraph * list float) :=
  Converters.get_graph water water_src water_dst water_images water_lattice
    water_Z ["H"; "O"] water_cart_coords.

(** The same call with the lattice given as a bare 3-by-3 matrix. *)
Definition water_graph_bare_lattice : result (DGL.DGLGraph * list float) :=
  Converters.get_graph water water_src water_dst water_images
    (ints [3; 3]%nat [1; 0; 0;  0; 2; 0;  0; 0; 3]%Z)
    water_Z ["H"; "O"] water_cart_coords.

(** A property module with the mean squared error as loss, for labels
    of mean 2 and standard deviation 1/2. *)
Definition property_module : result ModelLightningModule.t :=
  ModelLightningModule.__init__ sqrt6 (rat 2 1) (rat 1 2) "mse_loss"
    (rat 1 1000) 1000 (rat 1 100) false.

Definition property_self : ModelLightningModule.t := get property_module I.

Definition property_labels : tensor1 := [rat 3 1; rat 5 1].
Definition property_preds : tensor1 := [rat 0 1; rat 6 1].

Definition property_loss : result TrainingSteps.Model.results :=
  TrainingSteps.Model.loss_fn property_self
    (ModelLightningModule.loss property_self) property_labels property_preds.

(** A potential module as [symbreak_module], with the "absolute"
    target. *)
Definition absolute_module : result PotentialLightningModule.t :=
  PotentialLightningModule.__init__ sqrt6
    (rat 1 1) (rat 1 1) (rat 0 1) (rat 1 1)
    (rat 0 1) (rat 1 1) "l1_loss" None (rat 1 1000) 1000 (rat 1 100)
    false true (Some "absolute").

Definition absolute_self : PotentialLightningModule.t := get absolute_module I.

(** A potential module with the mean squared error as loss, a site-wise
    weight of 1/10, missing labels not allowed and no target policy. *)
Definition strict_module : result PotentialLightningModule.t :=
  PotentialLightningModule.__init__ sqrt6
    (rat 1 1) (rat 1 1) (rat 0 1) (rat 1 10)
    (rat 0 1) (rat 1 1) "mse_loss" None (rat 1 1000) 1000 (rat 1 100)
    false false None.

Definition strict_self : PotentialLightningModule.t := get strict_module I.

(** A potential module for energies, forces and stresses only. *)
Definition efs_module : result PotentialLightningModule.t :=
  PotentialLightningModule.__init__ sqrt6
    (rat 1 1) (rat 1 1) (rat 1 10) (rat 0 1)
    (rat 0 1) (rat 1 1) "huber_loss" None (rat 1 1000) 1000 (rat 1 100)
    false false None.

Definition efs_self : PotentialLightningModule.t := get efs_module I.

(** A batch of the two-atom structure without site-wise targets, and the
    output of a model for it with site-wise predictions. *)
Definition efs_batch : TrainingSteps.Potential.batch :=
  {| TrainingSteps.Potential.batch_num_nodes := num_atoms_two;
     TrainingSteps.Potential.targets := take 3 (two_atoms []) |}.

Definition node_features : tensor1 := replicate 4 (rat 1 3).

Definition site_wise_output : list tensor1 :=
  [ [rat (-7) 2]; replicate 6 (rat 1 10); replicate 9 (rat 0 1);
    node_features; [rat 2 1; rat 1 1] ].

(** A checkpoint saved without a state dict. *)
Definition bare_checkpoint : gmap string (PotentialLightningModule.entry Z) :=
  {[ "epoch" := PotentialLightningModule.Other "7" ]}.

(** Parameters for [xavier_init]: the second is a scalar. *)
Definition scalar_model : list (string * list nat) :=
  [("dense.bias", [4%nat]); ("readout.scale", []); ("dense.weight", [4; 4]%nat)].

Definition vector_model : list (string * list nat) :=
  [("embedding.scale", [1%nat]); ("dense.bias", [4%nat]);
   ("dense.weight", [4; 4]%nat)].


End Examples.

(** * Properties *)

(** ** The result monad *)

Lemma bind_Ok {A B} (k : A → result B) (a : A) : Ok a ≫= k = k a.
Proof. reflexivity. Qed.

Lemma bind_Raise {A B} (k : A → result B) (e : exn) :
  Raise e ≫= k = Raise e.
Proof. reflexivity. Qed.

Lemma bind_ok_inv {A B} (r : result A) (k : A → result B) (b : B) :
  r ≫= k = Ok b → ∃ a, r = Ok a ∧ k a = Ok b.
Proof. destruct r as [a|e]; [by exists a | discriminate]. Qed.

(** Inverts a chain of binds known to return. *)
Ltac inv_binds H :=
  repeat match type of H with
         | (let '(_, _) := ?x in _) = Ok _ => destruct x; simpl in H
         | _ ≫= _ = Ok _ =>
             let Hb := fresh "Hb" in
             apply bind_ok_inv in H; destruct H as (? & Hb & H);
             simpl in H; try inv_binds Hb
         end.

(** ** The normalizer *)

Section NormalizerProperties.
Import Binary64.

Lemma forallb_elem_of {A} (f : A → bool) (l : list A) x :
  forallb f l = true → x ∈ l → f x = true.
Proof.
  induction l as [|y l IH]; [by intros _ ?%not_elem_of_nil|].
  intros [Hy Hl]%andb_true_iff [->|Hin]%elem_of_cons; auto.
Qed.

(** A check that holds on the grid holds at every point of it. *)
Lemma on_grid_spec check j k i :
  on_grid check = true →
  (-20 ≤ i ≤ 20)%Z → (-20 ≤ j ≤ 20)%Z → (-20 ≤ k ≤ 20)%Z → k ≠ 0%Z →
  check j k i = true.
Proof.
  intros H Hi Hj Hk Hk0. unfold on_grid in H.
  assert (Hin : ∀ z, (-20 ≤ z ≤ 20)%Z → z ∈ grid).
  { intros z Hz. apply elem_of_seqZ. lia. }
  pose proof (forallb_elem_of _ _ j H (Hin j Hj)) as H1. cbv beta in H1.
  pose proof (forallb_elem_of _ _ k H1 (Hin k Hk)) as H2. cbv beta in H2.
  apply orb_true_iff in H2 as [H2|H2]; [by apply Z.eqb_eq in H2|].
  exact (forallb_elem_of _ _ i H2 (Hin i Hi)).
Qed.





End NormalizerProperties.

(** ** Construction of the training modules *)

Section Construction.
Import Training Torch.
Variable sqrt : Qc → Qc.

Lemma ge0_negative w : Float.negative w → Float.ge0 w = false.
Proof.
  destruct w as [a|]; simpl; [|done]. intros Ha.
  apply bool_decide_eq_false. by apply Qclt_not_le.
Qed.

Lemma ge0_non_negative w : Float.non_negative w ↔ Float.ge0 w = true.
Proof.
  destruct w as [a|]; simpl; [|done]. by rewrite bool_decide_eq_true.
Qed.

Lemma assert_ge0_ok w msg :
  Float.non_negative w → PotentialLightningModule.assert_ge0 w msg = Ok ().
Proof.
  intros H%ge0_non_negative. unfold PotentialLightningModule.assert_ge0.
  by rewrite H.
Qed.

(** C7.  If one of the four weights is negative the constructor raises an
    assertion error, whatever the other arguments; if the four are
    non-negative it returns the module, with the weights stored. *)
Theorem init_validates_weights
    (energy_weight force_weight stress_weight site_wise_weight : float)
    (data_mean data_std : float) (loss : string) (loss_params : option kwargs)
    (lr : float) (decay_steps : Z) (decay_alpha : float)
    (sync_dist allow_missing_labels : bool) (site_wise_target : option string) :
  (Float.negative energy_weight ∨ Float.negative force_weight
   ∨ Float.negative stress_weight ∨ Float.negative site_wise_weight →
   ∃ msg got,
     PotentialLightningModule.__init__ sqrt
       energy_weight force_weight stress_weight site_wise_weight
       data_mean data_std loss loss_params lr decay_steps decay_alpha
       sync_dist allow_missing_labels site_wise_target
     = Raise (AssertionError msg got))
  ∧ (Float.non_negative energy_weight ∧ Float.non_negative force_weight
     ∧ Float.non_negative stress_weight ∧ Float.non_negative site_wise_weight →
     ∃ m,
       PotentialLightningModule.__init__ sqrt
         energy_weight force_weight stress_weight site_wise_weight
         data_mean data_std loss loss_params lr decay_steps decay_alpha
         sync_dist allow_missing_labels site_wise_target
       = Ok m
       ∧ PotentialLightningModule.energy_weight m = energy_weight
       ∧ PotentialLightningModule.force_weight m = force_weight
       ∧ PotentialLightningModule.stress_weight m = stress_weight
       ∧ PotentialLightningModule.site_wise_weight m = site_wise_weight).
Proof.
  split.
  - intros Hneg.
    unfold PotentialLightningModule.__init__, PotentialLightningModule.assert_ge0.
    destruct (Float.ge0 energy_weight) eqn:He; simpl; [|by eauto].
    destruct (Float.ge0 force_weight) eqn:Hf; simpl; [|by eauto].
    destruct (Float.ge0 stress_weight) eqn:Hs; simpl; [|by eauto].
    destruct (Float.ge0 site_wise_weight) eqn:Hm; simpl; [|by eauto].
    destruct Hneg as [H|[H|[H|H]]]; apply ge0_negative in H; congruence.
  - intros (He & Hf & Hs & Hm). unfold PotentialLightningModule.__init__.
    rewrite !assert_ge0_ok by done. simpl. eauto 10.
Qed.

(** C10.  A loss name that is not recognised selects the mean absolute
    error and is no error: [ModelLightningModule] does so for every name
    but "mse_loss", [PotentialLightningModule] (its weights being
    non-negative) for every name but "mse_loss" and "huber_loss"; the same
    name given to [xavier_init] as a distribution raises a value error
    unless it is "uniform" or "normal". *)
Theorem unknown_loss_name_selects_l1 (name : string)
    (energy_weight force_weight stress_weight site_wise_weight : float)
    (data_mean data_std : float) (loss_params : option kwargs)
    (lr : float) (decay_steps : Z) (decay_alpha : float)
    (sync_dist allow_missing_labels : bool) (site_wise_target : option string)
    (model : list (string * list nat)) (gain : float) :
  (name ≠ "mse_loss" →
   ∃ m,
     ModelLightningModule.__init__ sqrt data_mean data_std name
       lr decay_steps decay_alpha sync_dist = Ok m
     ∧ ModelLightningModule.loss m = l1_loss)
  ∧ (name ≠ "mse_loss" → name ≠ "huber_loss" →
     Float.non_negative energy_weight ∧ Float.non_negative force_weight
     ∧ Float.non_negative stress_weight
     ∧ Float.non_negative site_wise_weight →
     ∃ m,
       PotentialLightningModule.__init__ sqrt
         energy_weight force_weight stress_weight site_wise_weight
         data_mean data_std name loss_params lr decay_steps decay_alpha
         sync_dist allow_missing_labels site_wise_target = Ok m
       ∧ PotentialLightningModule.loss m = l1_loss)
  ∧ (name ≠ "uniform" → name ≠ "normal" →
     xavier_init sqrt model gain name
     = Raise (ValueError ("Invalid distribution: " +:+ name))).
Proof.
  split; [|split].
  - intros Hmse. eexists; split; [reflexivity|]. simpl. by case_decide.
  - intros Hmse Hhuber (He & Hf & Hs & Hm).
    unfold PotentialLightningModule.__init__.
    rewrite !assert_ge0_ok by done. simpl.
    eexists; split; [reflexivity|]. simpl. by repeat case_decide.
  - intros Hu Hn. unfold xavier_init. by repeat case_decide.
Qed.

End Construction.

Lemma init_validates_weights_witness :
  (∃ msg got,
     Training.PotentialLightningModule.__init__ sqrt6
       (rat 1 1) (rat (-1) 10) (rat 0 1) (rat 0 1)
       (rat 0 1) (rat 1 1) "mse_loss" None (rat 1 1000) 1000 (rat 1 100)
       false false (Some "absolute")
     = Raise (AssertionError msg got))
  ∧ (∃ m,
       Training.PotentialLightningModule.__init__ sqrt6
         (rat 1 1) (rat 1 1) (rat 0 1) (rat 0 1)
         (rat 0 1) (rat 1 1) "mse_loss" None (rat 1 1000) 1000 (rat 1 100)
         false false (Some "absolute")
       = Ok m
       ∧ Training.PotentialLightningModule.energy_weight m = rat 1 1
       ∧ Training.PotentialLightningModule.force_weight m = rat 1 1
       ∧ Training.PotentialLightningModule.stress_weight m = rat 0 1
       ∧ Training.PotentialLightningModule.site_wise_weight m = rat 0 1).
Proof.
  split.
  - apply (proj1 (init_validates_weights sqrt6
      (rat 1 1) (rat (-1) 10) (rat 0 1) (rat 0 1)
      (rat 0 1) (rat 1 1) "mse_loss" None (rat 1 1000) 1000 (rat 1 100)
      false false (Some "absolute"))).
    right; left. compute_done.
  - apply (proj2 (init_validates_weights sqrt6
      (rat 1 1) (rat 1 1) (rat 0 1) (rat 0 1)
      (rat 0 1) (rat 1 1) "mse_loss" None (rat 1 1000) 1000 (rat 1 100)
      false false (Some "absolute"))).
    repeat split; compute_done.
Defined.

Lemma unknown_loss_name_selects_l1_witness :
  (∃ m,
     Training.ModelLightningModule.__init__ sqrt6 (rat 0 1) (rat 1 1)
       "l2_loss" (rat 1 1000) 1000 (rat 1 100) false = Ok m
     ∧ Training.ModelLightningModule.loss m = Torch.l1_loss)
  ∧ (∃ m,
       Training.PotentialLightningModule.__init__ sqrt6
         (rat 1 1) (rat 1 1) (rat 0 1) (rat 0 1)
         (rat 0 1) (rat 1 1) "l2_loss" None (rat 1 1000) 1000 (rat 1 100)
         false false (Some "absolute") = Ok m
       ∧ Training.PotentialLightningModule.loss m = Torch.l1_loss)
  ∧ Training.xavier_init sqrt6 [("weight", [3%nat])] (rat 1 1) "l2_loss"
    = Raise (ValueError "Invalid distribution: l2_loss").
Proof.
  pose proof (unknown_loss_name_selects_l1 sqrt6 "l2_loss"
    (rat 1 1) (rat 1 1) (rat 0 1) (rat 0 1)
    (rat 0 1) (rat 1 1) None (rat 1 1000) 1000 (rat 1 100)
    false false (Some "absolute") [("weight", [3%nat])] (rat 1 1))
    as (Hmodel & Hpotential & Hxavier).
  split; [|split].
  - apply Hmodel. compute_done.
  - apply Hpotential; [compute_done | compute_done |].
    repeat split; compute_done.
  - apply Hxavier; compute_done.
Defined.

(** ** The checkpoint shim *)

Section CheckpointProperties.
Import Training.PotentialLightningModule.
Context {V : Type}.
Implicit Types (live sd : gmap string V) (ckpt : gmap string (entry V)).

Lemma backfill_key_spec live key ckpt sd v :
  ckpt !! "state_dict" = Some (StateDict sd) →
  live !! key = Some v →
  backfill_key live key ckpt
  = Ok (<["state_dict" := StateDict (sd ∪ {[key := v]})]> ckpt).
Proof.
  intros Hsd Hlive. unfold backfill_key, get_state_dict. rewrite Hsd. simpl.
  case_decide as Hkey.
  - destruct Hkey as [w Hw]. f_equal. symmetry. apply insert_id.
    rewrite Hsd. do 2 f_equal. apply map_eq. intros k.
    rewrite lookup_union. destruct (decide (k = key)) as [->|Hne].
    + by rewrite Hw, lookup_singleton_eq.
    + rewrite lookup_singleton_ne by done. by destruct (sd !! k).
  - rewrite Hlive. do 3 f_equal. apply insert_union_singleton_r.
    by apply eq_None_not_Some.
Qed.

Lemma backfill_spec live keys :
  (∀ key, key ∈ keys → is_Some (live !! key)) →
  ∀ ckpt sd,
    ckpt !! "state_dict" = Some (StateDict sd) →
    ∃ sd',
      backfill live keys ckpt = Ok (<["state_dict" := StateDict sd']> ckpt)
      ∧ ∀ k, sd' !! k
             = sd !! k ∪ (if decide (k ∈ keys) then live !! k else None).
Proof.
  induction keys as [|key keys IH]; intros Hkeys ckpt sd Hsd.
  - exists sd. split.
    + unfold backfill; simpl. f_equal. symmetry. by apply insert_id.
    + intros k. rewrite decide_False by apply not_elem_of_nil.
      by destruct (sd !! k).
  - destruct (Hkeys key) as [v Hv]; [apply list_elem_of_here|].
    destruct (IH (λ k Hk, Hkeys k (list_elem_of_further _ _ _ Hk))
                (<["state_dict" := StateDict (sd ∪ {[key := v]})]> ckpt)
                (sd ∪ {[key := v]})) as (sd' & Hrun & Hlook).
    { apply lookup_insert_eq. }
    exists sd'. split.
    + unfold backfill in *; simpl.
      rewrite (backfill_key_spec live key ckpt sd v Hsd Hv).
      rewrite Hrun. by rewrite insert_insert_eq.
    + intros k. rewrite Hlook, lookup_union.
      destruct (decide (k = key)) as [->|Hne].
      * rewrite lookup_singleton_eq, Hv.
        destruct (decide (key ∈ key :: keys)) as [_|Hnin];
          [|destruct Hnin; apply list_elem_of_here].
        destruct (sd !! key); simpl; by repeat case_decide.
      * rewrite lookup_singleton_ne by done.
        destruct (decide (k ∈ keys)) as [Hin|Hnin],
                 (decide (k ∈ key :: keys)) as [Hin'|Hnin'].
        -- by destruct (sd !! k).
        -- exfalso. apply Hnin'. by apply list_elem_of_further.
        -- apply elem_of_cons in Hin' as [?|?]; done.
        -- by destruct (sd !! k).
Qed.

(** C9.  When the checkpoint holds a saved state dict, loading never
    raises: the checkpoint keeps its other entries and its state dict
    becomes one in which every key of the saved state dict has its saved
    value, and every key absent from it has what the live model has for
    it (its current value, or nothing if the live model lacks it too). *)
Theorem on_load_checkpoint_backfills live ckpt sd :
  ckpt !! "state_dict" = Some (StateDict sd) →
  ∃ sd',
    on_load_checkpoint live ckpt = Ok (<["state_dict" := StateDict sd']> ckpt)
    ∧ (∀ key v, sd !! key = Some v → sd' !! key = Some v)
    ∧ (∀ key, sd !! key = None → sd' !! key = live !! key).
Proof.
  intros Hsd. unfold on_load_checkpoint.
  destruct (backfill_spec live (map_to_list live).*1) with (ckpt := ckpt) (sd := sd)
    as (sd' & Hrun & Hlook); [|done|].
  { intros key (kv & -> & Hkv)%list_elem_of_fmap. destruct kv as [k v].
    apply elem_of_map_to_list in Hkv. by exists v. }
  exists sd'. split; [done|]. split.
  - intros key v Hkey. rewrite Hlook, Hkey.
    case_decide; [by destruct (live !! key) | done].
  - intros key Hkey. rewrite Hlook, Hkey. case_decide as Hin.
    + by destruct (live !! key).
    + simpl. destruct (live !! key) as [v|] eqn:Hv; [|done].
      exfalso. apply Hin. apply list_elem_of_fmap. exists (key, v).
      split; [done|]. by apply elem_of_map_to_list.
Qed.

End CheckpointProperties.

(** ** Tensors and the loss of the potential module *)

Section TensorLemmas.
Import Torch.

Lemma getitem_Some {A} (t : list A) i x : t !! i = Some x → getitem t i = Ok x.
Proof. intros H. unfold getitem. by rewrite H. Qed.

Lemma getitem_insert_ne {A} (t : list A) i j x :
  i ≠ j → getitem (<[j := x]> t) i = getitem t i.
Proof. intros H. unfold getitem. by rewrite list_lookup_insert_ne. Qed.

Lemma getitem_insert_eq {A} (t : list A) i x y :
  t !! i = Some y → getitem (<[i := x]> t) i = Ok x.
Proof.
  intros H. unfold getitem.
  rewrite list_lookup_insert_eq; [done | by eapply lookup_lt_Some].
Qed.

Lemma float_neg_involutive x : Float.neg (Float.neg x) = x.
Proof. destruct x as [a|]; simpl; [|done]. by rewrite Qcopp_involutive. Qed.

Lemma neg_involutive a : neg (neg a) = a.
Proof.
  unfold neg. rewrite map_map. induction a as [|x a IH]; simpl; [done|].
  by rewrite float_neg_involutive, IH.
Qed.

Lemma length_neg a : length (neg a) = length a.
Proof. apply length_map. Qed.

Lemma select_neg a mask : select (neg a) mask = neg (select a mask).
Proof.
  revert mask. induction a as [|x a IH]; intros [|[] mask]; simpl; try done.
  by rewrite IH.
Qed.

Lemma mask_index_neg a mask :
  mask_index (neg a) mask = neg <$> mask_index a mask.
Proof.
  unfold mask_index. rewrite length_neg. case_decide; simpl; [|done].
  by rewrite select_neg.
Qed.

Lemma Qcmin_comm a b : Float.Qcmin a b = Float.Qcmin b a.
Proof.
  unfold Float.Qcmin. repeat case_decide; try done.
  - by apply Qcle_antisym.
  - destruct (total Qcle a b); done.
Qed.

Lemma float_min_comm x y : Float.min x y = Float.min y x.
Proof. destruct x, y; simpl; try done. by rewrite Qcmin_comm. Qed.









Lemma float_add_finite x y :
  Float.finite x → Float.finite y → Float.finite (Float.add x y).
Proof. by destruct x, y. Qed.


End TensorLemmas.

(** *** The losses and metrics of the library have the two properties *)

Section LibraryLosses.
Import Torch.

Lemma broadcast2_neg_raise f g l p e :
  broadcast2 f l p = Raise e → broadcast2 g l (neg p) = Raise e.
Proof.
  unfold broadcast2. rewrite length_neg. case_decide; [done|].
  destruct l as [|x [|x' l]], p as [|y [|y' p]]; simpl; done.
Qed.

Lemma same_shape_neg l p : same_shape l (neg p) = same_shape l p.
Proof. unfold same_shape. by rewrite length_neg. Qed.

Lemma l1_loss_sign_blind kw : sign_blind (λ l p, l1_loss l p kw).
Proof.
  intros l p e. unfold l1_loss. destruct (kw_delta kw); [done|].
  unfold sub. destruct (broadcast2 Float.sub l p) eqn:E; [done|].
  intros [= <-]. by rewrite (broadcast2_neg_raise _ Float.sub _ _ _ E).
Qed.

Lemma mse_loss_sign_blind kw : sign_blind (λ l p, mse_loss l p kw).
Proof.
  intros l p e. unfold mse_loss. destruct (kw_delta kw); [done|].
  unfold sub. destruct (broadcast2 Float.sub l p) eqn:E; [done|].
  intros [= <-]. by rewrite (broadcast2_neg_raise _ Float.sub _ _ _ E).
Qed.

Lemma huber_loss_sign_blind kw : sign_blind (λ l p, huber_loss l p kw).
Proof.
  intros l p e. unfold huber_loss.
  destruct (default (Fin 1) (kw_delta kw)) as [delta|]; [|done].
  case_decide; [|done].
  unfold sub. destruct (broadcast2 Float.sub l p) eqn:E; [done|].
  intros [= <-]. by rewrite (broadcast2_neg_raise _ Float.sub _ _ _ E).
Qed.

Lemma MeanAbsoluteError_sign_blind : sign_blind MeanAbsoluteError.
Proof.
  intros l p e. unfold MeanAbsoluteError. rewrite same_shape_neg.
  by destruct (same_shape l p).
Qed.

Lemma MeanSquaredError_sign_blind sqrt :
  sign_blind (MeanSquaredError_squared_False sqrt).
Proof.
  intros l p e. unfold MeanSquaredError_squared_False. rewrite same_shape_neg.
  by destruct (same_shape l p).
Qed.

Lemma sum_finite xs : Forall Float.finite xs → Float.finite (Float.sum xs).
Proof.
  induction 1 as [|x xs Hx Hxs IH]; simpl; [done|].
  by apply float_add_finite.
Qed.

Lemma of_nat_ne_0 n : n ≠ 0%nat → Qc_of_Z (Z.of_nat n) ≠ 0.
Proof.
  intros Hn H0. rewrite <- Z2Qc_inj_0 in H0. apply Z2Qc_inj in H0. lia.
Qed.

Lemma mean_finite xs :
  xs ≠ [] → Forall Float.finite xs → Float.finite (Float.mean xs).
Proof.
  intros Hne Hxs. unfold Float.mean.
  pose proof (sum_finite xs Hxs) as Hsum.
  destruct (Float.sum xs) as [s|]; [|done]. simpl.
  rewrite decide_False; [done|]. apply of_nat_ne_0. by destruct xs.
Qed.

Lemma reduce_finite kw xs :
  xs ≠ [] → Forall Float.finite xs → Float.finite (reduce kw xs).
Proof.
  intros Hne Hxs. unfold reduce.
  destruct (kw_reduction kw) as [[]|]; auto using mean_finite, sum_finite.
Qed.

Lemma sub_same_length l p :
  length l = length p → sub l p = Ok (zip_with Float.sub l p).
Proof. intros H. unfold sub, broadcast2. by rewrite decide_True. Qed.

Lemma zip_with_sub_finite l p :
  Forall Float.finite l → Forall Float.finite p →
  Forall Float.finite (zip_with Float.sub l p).
Proof.
  intros Hl. revert p. induction Hl as [|[x|] l Hx Hl IH]; intros p Hp;
    [done| |done].
  destruct Hp as [|[y|] p Hy Hp]; simpl; [done| |done].
  constructor; [done|]. by apply IH.
Qed.

Lemma map_finite (f : float → float) xs :
  (∀ x, Float.finite x → Float.finite (f x)) →
  Forall Float.finite xs → Forall Float.finite (map f xs).
Proof. intros Hf. induction 1; simpl; constructor; auto. Qed.

Lemma zip_with_sub_not_nil (l p : tensor1) :
  l ≠ [] → length l = length p → zip_with Float.sub l p ≠ [].
Proof. destruct l, p; simpl; done. Qed.

Lemma map_not_nil {A B} (f : A → B) xs : xs ≠ [] → map f xs ≠ [].
Proof. by destruct xs. Qed.


Lemma mse_loss_finite_on_finite kw : finite_on_finite (λ l p, mse_loss l p kw).
Proof.
  intros l p v Hne Hlen Hl Hp. unfold mse_loss.
  destruct (kw_delta kw); [done|]. rewrite sub_same_length by done. simpl.
  intros [= <-]. apply reduce_finite.
  - by apply map_not_nil, zip_with_sub_not_nil.
  - apply map_finite; [by intros [x|]|]. by apply zip_with_sub_finite.
Qed.

(** The mean absolute error is the mean of [l1_entry] over the entries. *)
Lemma l1_loss_mean_of_entries l p :
  length l = length p →
  l1_loss l p no_kwargs = Ok (Float.mean (zip_with l1_entry l p)).
Proof.
  intros Hlen. unfold l1_loss. simpl. rewrite sub_same_length by done. simpl.
  unfold reduce; simpl. do 2 f_equal. clear Hlen. revert p.
  induction l as [|x l IH]; intros [|y p]; simpl; try done.
  by rewrite IH.
Qed.

End LibraryLosses.

Section LossFn.
Import Torch Training.PotentialLightningModule.

(** Destructs the first call of a chain of binds. *)
Ltac bind_head :=
  match goal with
  | |- @mbind result _ _ _ _ ?r = _ =>
      destruct r as [?|?]; simpl; try reflexivity
  end.

(** [loss_fn] is the loss without the site-wise term, followed by the
    site-wise block. *)
Lemma loss_fn_split self loss labels preds num_atoms :
  loss_fn self loss labels preds num_atoms
  = r0 ← loss_fn (without_site_wise self) loss labels preds num_atoms;
    '(total_loss, m_mae, m_rmse) ←
      site_wise_block self loss labels preds (Total_Loss r0);
    Ok {| Total_Loss := total_loss;
          Energy_MAE := Energy_MAE r0;
          Force_MAE := Force_MAE r0;
          Stress_MAE := Stress_MAE r0;
          Site_Wise_MAE := m_mae;
          Energy_RMSE := Energy_RMSE r0;
          Force_RMSE := Force_RMSE r0;
          Stress_RMSE := Stress_RMSE r0;
          Site_Wise_RMSE := m_rmse |}.
Proof.
  unfold loss_fn.
  change (self_loss (without_site_wise self)) with (self_loss self).
  change (stress_block (without_site_wise self)) with (stress_block self).
  change (site_wise_block (without_site_wise self) loss labels preds)
    with (λ t : float, Ok (t, zeros_1, zeros_1)).
  simpl.
  do 12 bind_head.
  destruct (stress_block self loss labels preds _) as [[[t s_mae] s_rmse]|];
    simpl; reflexivity.
Qed.


Lemma stress_block_insert_3 self loss labels preds x total_loss :
  stress_block self loss labels (<[3%nat := x]> preds) total_loss
  = stress_block self loss labels preds total_loss.
Proof. unfold stress_block. by rewrite getitem_insert_ne by done. Qed.

Lemma stress_block_insert_3_labels self loss labels preds x total_loss :
  stress_block self loss (<[3%nat := x]> labels) preds total_loss
  = stress_block self loss labels preds total_loss.
Proof. unfold stress_block. by rewrite getitem_insert_ne by done. Qed.


Lemma site_wise_terms_neg self loss labels_3 preds_3 :
  site_wise_target self = Some "symbreak" →
  sign_blind (λ l p, loss l p (loss_params self)) →
  sign_blind (mae self) →
  sign_blind (rmse self) →
  site_wise_terms self loss labels_3 (neg preds_3)
  = site_wise_terms self loss labels_3 preds_3.
Proof.
  intros Htarget Hloss Hmae Hrmse. unfold site_wise_terms.
  rewrite !decide_True by done. rewrite neg_involutive.
  destruct (loss labels_3 preds_3 (loss_params self)) as [a|e] eqn:E1;
    [|by rewrite (Hloss _ _ _ E1)].
  destruct (loss labels_3 (neg preds_3) (loss_params self)) as [b|e];
    simpl; [|done].
  rewrite (float_min_comm b a).
  destruct (mae self labels_3 preds_3) as [a'|e] eqn:E2;
    [|by rewrite (Hmae _ _ _ E2)].
  destruct (mae self labels_3 (neg preds_3)) as [b'|e]; simpl; [|done].
  rewrite (float_min_comm b' a').
  destruct (rmse self labels_3 preds_3) as [a''|e] eqn:E3;
    [|by rewrite (Hrmse _ _ _ E3)].
  destruct (rmse self labels_3 (neg preds_3)) as [b''|e]; simpl; [|done].
  by rewrite (float_min_comm b'' a'').
Qed.

Lemma site_wise_inputs_neg self labels preds M :
  preds !! 3%nat = Some M →
  site_wise_inputs self labels (<[3%nat := neg M]> preds)
  = (λ lp, (lp.1, neg lp.2)) <$> site_wise_inputs self labels preds.
Proof.
  intros HM. unfold site_wise_inputs.
  rewrite (getitem_insert_eq preds 3 (neg M) M HM), (getitem_Some preds 3 M HM).
  destruct (allow_missing_labels self), (getitem labels 3) as [L|];
    simpl; try done.
  destruct (mask_index L (invert (isnan L))) as [L'|]; simpl; [|done].
  rewrite mask_index_neg. by destruct (mask_index M (invert (isnan L))).
Qed.

Lemma site_wise_block_neg self loss labels preds M total_loss :
  site_wise_target self = Some "symbreak" →
  sign_blind (λ l p, loss l p (loss_params self)) →
  sign_blind (mae self) →
  sign_blind (rmse self) →
  preds !! 3%nat = Some M →
  site_wise_block self loss labels (<[3%nat := neg M]> preds) total_loss
  = site_wise_block self loss labels preds total_loss.
Proof.
  intros Htarget Hloss Hmae Hrmse HM. unfold site_wise_block.
  destruct (calc_site_wise self); [|done].
  rewrite (site_wise_inputs_neg self labels preds M HM).
  destruct (site_wise_inputs self labels preds) as [[labels_3 preds_3]|];
    simpl; [|done].
  case_decide; [|done]. by rewrite site_wise_terms_neg.
Qed.

(** C5.  Under the "symbreak" target, negating the site-wise predictions
    changes neither the site-wise loss, mean absolute error and root mean
    square error, nor any entry of what [loss_fn] returns; this for every
    loss and metrics whose exceptions do not depend on the sign of the
    predictions, and for all tensors, finite or not. *)
Theorem symbreak_sign_flip_invariant self loss labels preds num_atoms M :
  site_wise_target self = Some "symbreak" →
  sign_blind (λ l p, loss l p (loss_params self)) →
  sign_blind (mae self) →
  sign_blind (rmse self) →
  preds !! 3%nat = Some M →
  (∀ labels_3 preds_3,
     site_wise_terms self loss labels_3 (neg preds_3)
     = site_wise_terms self loss labels_3 preds_3)
  ∧ loss_fn self loss labels (<[3%nat := neg M]> preds) num_atoms
    = loss_fn self loss labels preds num_atoms.
Proof.
  intros Htarget Hloss Hmae Hrmse HM. split.
  - intros labels_3 preds_3. by apply site_wise_terms_neg.
  - unfold loss_fn. rewrite !(getitem_insert_ne preds) by done.
    do 12 bind_head.
    rewrite stress_block_insert_3.
    destruct (stress_block self loss labels preds _) as [[[t s_mae] s_rmse]|];
      simpl; [|done].
    by rewrite (site_wise_block_neg self loss labels preds M).
Qed.




(** C4, as the code has it.  Under the "symbreak" target, when the
    site-wise block has labels to compare, the site-wise term of
    [Total_Loss] is the weight times the minimum of two reduced losses:
    the loss of the labels against the predictions and the loss of the
    labels against the negated predictions, each reduced over all entries
    before the minimum is taken. *)
Theorem symbreak_is_min_of_reduced_losses
    self loss labels preds num_atoms labels_3 preds_3 r :
  calc_site_wise self = true →
  site_wise_target self = Some "symbreak" →
  site_wise_inputs self labels preds = Ok (labels_3, preds_3) →
  labels_3 ≠ [] →
  loss_fn self loss labels preds num_atoms = Ok r →
  ∃ r0 a b,
    loss_fn (without_site_wise self) loss labels preds num_atoms = Ok r0
    ∧ loss labels_3 preds_3 (loss_params self) = Ok a
    ∧ loss labels_3 (neg preds_3) (loss_params self) = Ok b
    ∧ Total_Loss r
      = Float.add (Total_Loss r0)
          (Float.mul (site_wise_weight self) (Float.min a b)).
Proof.
  intros Hcalc Htarget Hinputs Hne Hr.
  rewrite loss_fn_split in Hr.
  destruct (loss_fn (without_site_wise self) loss labels preds num_atoms)
    as [r0|]; [simpl in Hr|done].
  unfold site_wise_block in Hr. rewrite Hcalc, Hinputs in Hr. simpl in Hr.
  rewrite decide_True in Hr by (destruct labels_3; [done | simpl; lia]).
  unfold site_wise_terms in Hr. rewrite decide_True in Hr by done.
  destruct (loss labels_3 preds_3 (loss_params self)) as [a|];
    [simpl in Hr|done].
  destruct (loss labels_3 (neg preds_3) (loss_params self)) as [b|];
    [simpl in Hr|done].
  exists r0, a, b. repeat split; try done.
  inv_binds Hr. by simplify_eq/=.
Qed.

End LossFn.

(** ** The statements on the example inputs *)

Section Evaluated.
Import Torch Training.PotentialLightningModule Examples.

Lemma on_load_checkpoint_backfills_witness :
  ∃ sd',
    on_load_checkpoint live_state_dict saved_checkpoint
    = Ok (<["state_dict" := StateDict sd']> saved_checkpoint)
    ∧ (∀ key v,
         ({[ "layer.weight" := 10%Z; "layer.bias" := 20%Z ]} : gmap string Z)
           !! key = Some v →
         sd' !! key = Some v)
    ∧ (∀ key,
         ({[ "layer.weight" := 10%Z; "layer.bias" := 20%Z ]} : gmap string Z)
           !! key = None →
         sd' !! key = live_state_dict !! key).
Proof.
  apply (on_load_checkpoint_backfills live_state_dict saved_checkpoint).
  reflexivity.
Defined.

(** The backfilled state dict of the example, evaluated. *)
Example on_load_checkpoint_example :
  on_load_checkpoint live_state_dict saved_checkpoint
  = Ok {[ "epoch" := Other "7";
          "state_dict" := StateDict
            {[ "layer.weight" := 10%Z; "layer.bias" := 20%Z;
               "readout.scale" := 3%Z ]} ]}.
Proof. vm_compute. reflexivity. Qed.

Lemma symbreak_self_constructed : symbreak_module = Ok symbreak_self.
Proof. reflexivity. Qed.

Lemma symbreak_sign_flip_invariant_witness :
  loss_fn symbreak_self l1_loss
    (two_atoms [rat 3 1; rat (-1) 2])
    (<[3%nat := neg [rat 2 1; rat 1 1]]> (two_atoms [rat 2 1; rat 1 1]))
    num_atoms_two
  = loss_fn symbreak_self l1_loss
      (two_atoms [rat 3 1; rat (-1) 2])
      (two_atoms [rat 2 1; rat 1 1]) num_atoms_two.
Proof.
  apply (symbreak_sign_flip_invariant symbreak_self l1_loss
           (two_atoms [rat 3 1; rat (-1) 2])
           (two_atoms [rat 2 1; rat 1 1]) num_atoms_two [rat 2 1; rat 1 1]).
  - reflexivity.
  - apply l1_loss_sign_blind.
  - apply MeanAbsoluteError_sign_blind.
  - apply MeanSquaredError_sign_blind.
  - reflexivity.
Defined.


Lemma symbreak_is_min_of_reduced_losses_witness :
  ∃ r0 a b,
    loss_fn (without_site_wise symbreak_self) l1_loss
      (two_atoms [rat 1 1; rat 1 1])
      (two_atoms [rat 1 1; rat (-1) 1]) num_atoms_two = Ok r0
    ∧ l1_loss [rat 1 1; rat 1 1] [rat 1 1; rat (-1) 1]
        (loss_params symbreak_self) = Ok a
    ∧ l1_loss [rat 1 1; rat 1 1] (neg [rat 1 1; rat (-1) 1])
        (loss_params symbreak_self) = Ok b
    ∧ Total_Loss
        (get (loss_fn symbreak_self l1_loss (two_atoms [rat 1 1; rat 1 1])
                (two_atoms [rat 1 1; rat (-1) 1]) num_atoms_two) I)
      = Float.add (Total_Loss r0)
          (Float.mul (site_wise_weight symbreak_self) (Float.min a b)).
Proof.
  apply (symbreak_is_min_of_reduced_losses symbreak_self l1_loss
           (two_atoms [rat 1 1; rat 1 1])
           (two_atoms [rat 1 1; rat (-1) 1]) num_atoms_two
           [rat 1 1; rat 1 1] [rat 1 1; rat (-1) 1]);
    [reflexivity | reflexivity | reflexivity | done | reflexivity].
Defined.

(** C4, as the specification words it, fails.  With site-wise labels
    [1, 1] and predictions [1, -1] the mean absolute error is 1 against
    the predictions and 1 against their negation, so the site-wise loss is
    1 and [Total_Loss], the other terms being zero, is 1; the minimum
    taken entry by entry before the mean would be 0. *)
Lemma symbreak_not_elementwise_min :
  (λ terms, terms.1.1)
    <$> site_wise_terms symbreak_self l1_loss
          [rat 1 1; rat 1 1] [rat 1 1; rat (-1) 1]
  = Ok (rat 1 1)
  ∧ Total_Loss
      <$> loss_fn symbreak_self l1_loss (two_atoms [rat 1 1; rat 1 1])
            (two_atoms [rat 1 1; rat (-1) 1]) num_atoms_two
    = Ok (rat 1 1)
  ∧ symbreak_elementwise_spec l1_entry
      [rat 1 1; rat 1 1] [rat 1 1; rat (-1) 1]
    = rat 0 1
  ∧ rat 1 1 ≠ rat 0 1.
Proof. repeat split; compute_done. Qed.

End Evaluated.

(** ** Weight initialisation *)

Section Xavier.
Import Torch Training.
Variable sqrt : Qc → Qc.

Lemma mapM_Ok_Forall2 {A B} (f : A → result B) l k :
  mapM f l = Ok k → Forall2 (λ x y, f x = Ok y) l k.
Proof.
  revert k. induction l as [|x l IH]; intros k H; simpl in H.
  - injection H as <-. constructor.
  - destruct (f x) as [y|] eqn:Hy; [simpl in H|done].
    destruct (mapM f l) as [k'|]; [simpl in H|done].
    injection H as <-. constructor; auto.
Qed.

Lemma truediv_Ok x y b : truediv x y = Ok b → b = Float.div x y.
Proof.
  unfold truediv. destruct y as [d|]; [|by intros [= <-]; destruct x].
  case_decide; [done|]. by intros [= <-].
Qed.

Lemma bound_Ok gain shape b :
  bound sqrt gain shape = Ok b →
  ∃ fan rest, shape = fan :: rest ∧ b = closed_form_bound sqrt gain fan.
Proof.
  unfold bound, getitem. destruct shape as [|fan rest]; [done|]. simpl.
  intros H%truediv_Ok. by exists fan, rest.
Qed.

(** What [init_param] records when it returns. *)
Lemma init_param_Ok gain distribution init_fn name shape action :
  init_param sqrt gain distribution init_fn name shape = Ok action →
  (endswith name ".bias" = true → action = fill_ Float.zero)
  ∧ (endswith name ".bias" = false → (length shape < 2)%nat →
     ∃ fan,
       shape = [fan]
       ∧ action
         = if decide (distribution = "uniform")
           then uniform_ (Float.neg (closed_form_bound sqrt gain fan))
                         (closed_form_bound sqrt gain fan)
           else normal_ Float.zero
                        (Float.mul (closed_form_bound sqrt gain fan)
                                   (closed_form_bound sqrt gain fan)))
  ∧ (endswith name ".bias" = false → (2 ≤ length shape)%nat →
     action = init_fn gain).
Proof.
  unfold init_param. destruct (endswith name ".bias").
  - intros [= <-]. by repeat split.
  - case_decide as Hrank.
    + intros H. destruct (bound sqrt gain shape) as [b|] eqn:Hb;
        [simpl in H|done].
      apply bound_Ok in Hb as (fan & rest & -> & ->).
      split; [done|]. split; [|simpl in *; lia].
      intros _ _. exists fan. split.
      * destruct rest; [done | simpl in Hrank; lia].
      * case_decide; by injection H as <-.
    + intros [= <-]. split; [done|]. split; [lia|done].
Qed.

(** C8, as the code has it.  A distribution other than "uniform" and
    "normal" raises a value error that names it.  Otherwise, when
    [xavier_init] returns, every parameter has its initialiser recorded:
    a name ending in ".bias" is filled with zero; another parameter of
    rank below two has one dimension [fan] and, with
    [b = gain * sqrt(6) / sqrt(2 * fan)], is drawn uniformly from [-b, b]
    for "uniform" and from the normal distribution of mean zero and
    standard deviation argument [b * b] for "normal"; a parameter of rank
    two or more gets the Xavier initialiser of the distribution. *)
Theorem xavier_init_actions model gain distribution :
  (distribution ≠ "uniform" → distribution ≠ "normal" →
   xavier_init sqrt model gain distribution
   = Raise (ValueError ("Invalid distribution: " +:+ distribution)))
  ∧ ∀ inits,
      xavier_init sqrt model gain distribution = Ok inits →
      (distribution = "uniform" ∨ distribution = "normal")
      ∧ length inits = length model
      ∧ ∀ i name shape,
          model !! i = Some (name, shape) →
          ∃ action,
            inits !! i = Some (name, action)
            ∧ (endswith name ".bias" = true → action = fill_ Float.zero)
            ∧ (endswith name ".bias" = false → (length shape < 2)%nat →
               ∃ fan,
                 shape = [fan]
                 ∧ action
                   = if decide (distribution = "uniform")
                     then uniform_
                            (Float.neg (closed_form_bound sqrt gain fan))
                            (closed_form_bound sqrt gain fan)
                     else normal_ Float.zero
                            (Float.mul (closed_form_bound sqrt gain fan)
                                       (closed_form_bound sqrt gain fan)))
            ∧ (endswith name ".bias" = false → (2 ≤ length shape)%nat →
               action
               = if decide (distribution = "uniform")
                 then xavier_uniform_ gain else xavier_normal_ gain).
Proof.
  split.
  - intros Hu Hn. unfold xavier_init. by repeat case_decide.
  - intros inits. unfold xavier_init.
    set (init_fn := if decide (distribution = "uniform") then xavier_uniform_
                    else xavier_normal_).
    intros H.
    assert (Hd : distribution = "uniform" ∨ distribution = "normal").
    { repeat case_decide; auto. done. }
    assert (Hmap : mapM (λ p, i ← init_param sqrt gain distribution init_fn
                                    p.1 p.2; Ok (p.1, i)) model = Ok inits).
    { subst init_fn. by repeat case_decide. }
    clear H. apply mapM_Ok_Forall2 in Hmap.
    split; [done|]. split; [symmetry; by eapply Forall2_length|].
    intros i name shape Hi.
    destruct (Forall2_lookup_l _ _ _ _ _ Hmap Hi) as ([name' action] & Hi' & Hp).
    simpl in Hp.
    destruct (init_param sqrt gain distribution init_fn name shape)
      as [action'|] eqn:Haction; [simpl in Hp|done].
    injection Hp as <- <-. exists action'. split; [done|].
    apply init_param_Ok in Haction as (Hbias & Hlow & Hhigh).
    split; [done|]. split; [done|].
    intros Hname Hrank. rewrite (Hhigh Hname Hrank).
    subst init_fn. by case_decide.
Qed.

End Xavier.

Lemma xavier_init_actions_witness :
  ∃ action,
    get (Training.xavier_init sqrt6
           [("embedding.scale", [1%nat]); ("dense.bias", [4%nat])]
           (rat 1 1) "normal") I !! 0%nat
    = Some ("embedding.scale", action)
    ∧ ∃ fan,
        [1%nat] = [fan]
        ∧ action
          = Training.normal_ Float.zero
              (Float.mul (Training.closed_form_bound sqrt6 (rat 1 1) fan)
                         (Training.closed_form_bound sqrt6 (rat 1 1) fan)).
Proof.
  destruct (proj2 (xavier_init_actions sqrt6
                     [("embedding.scale", [1%nat]); ("dense.bias", [4%nat])]
                     (rat 1 1) "normal") _ eq_refl)
    as (_ & _ & Hactions).
  destruct (Hactions 0%nat "embedding.scale" [1%nat] eq_refl)
    as (action & Hlookup & _ & Hlow & _).
  exists action. split; [exact Hlookup|].
  destruct (Hlow eq_refl ltac:(simpl; lia)) as (fan & Hshape & Haction).
  exists fan. split; [exact Hshape|]. exact Haction.
Defined.

(** C8, as the specification words it, fails for "normal".  With gain 1
    and a parameter of shape [1], the bound is [sqrt 6 / sqrt 2]; the
    standard deviation given to [normal_] is the square of the bound,
    which is another number. *)
Lemma xavier_normal_std_is_bound_squared :
  Training.bound sqrt6 (rat 1 1) [1%nat] = Ok (rat 2449489 1414213)
  ∧ Training.xavier_init sqrt6 [("embedding.scale", [1%nat])] (rat 1 1) "normal"
    = Ok [("embedding.scale",
           Training.normal_ Float.zero
             (Float.mul (rat 2449489 1414213) (rat 2449489 1414213)))]
  ∧ Float.mul (rat 2449489 1414213) (rat 2449489 1414213)
    ≠ rat 2449489 1414213.
Proof. repeat split; compute_done. Qed.

(** ** The graph converter *)

Section GraphConverter.
Import DGL Converters.

Lemma graph_Ok u v g :
  graph u v = Ok g →
  edges_src g = u ∧ edata g = ∅
  ∧ number_of_nodes g
    = match u ++ v with [] => 0%nat | ids => S (max_list ids) end.
Proof. unfold graph. case_decide; [|done]. by intros [= <-]. Qed.

Lemma add_nodes_Ok g num g' :
  add_nodes g num = Ok g' →
  edges_src g' = edges_src g ∧ edata g' = edata g
  ∧ Z.of_nat (number_of_nodes g') = (Z.of_nat (number_of_nodes g) + num)%Z.
Proof.
  unfold add_nodes. case_decide as H0.
  - intros [= <-]. repeat split. lia.
  - case_decide; [|done]. intros [= <-]. simpl. repeat split. lia.
Qed.

Lemma set_edata_Ok g key value g' :
  set_edata g key value = Ok g' →
  edges_src g' = edges_src g
  ∧ number_of_nodes g' = number_of_nodes g
  ∧ edata g' = <[key := value]> (edata g)
  ∧ rows_match value (num_edges g) = true.
Proof.
  unfold set_edata. destruct (rows_match value (num_edges g)); [|done].
  by intros [= <-].
Qed.

Lemma set_ndata_Ok g key value g' :
  set_ndata g key value = Ok g' →
  edges_src g' = edges_src g
  ∧ number_of_nodes g' = number_of_nodes g
  ∧ edata g' = edata g.
Proof.
  unfold set_ndata. destruct (rows_match value (num_nodes g)); [|done].
  by intros [= <-].
Qed.

Lemma set_edata_success g key value :
  rows_match value (num_edges g) = true →
  ∃ g', set_edata g key value = Ok g'
        ∧ edges_src g' = edges_src g
        ∧ number_of_nodes g' = number_of_nodes g.
Proof. intros H. unfold set_edata. rewrite H. by eexists. Qed.

Lemma set_ndata_success g key value :
  rows_match value (num_nodes g) = true →
  ∃ g', set_ndata g key value = Ok g'
        ∧ edges_src g' = edges_src g
        ∧ number_of_nodes g' = number_of_nodes g.
Proof. intros H. unfold set_ndata. rewrite H. by eexists. Qed.

Lemma add_nodes_success g num :
  (0 ≤ num)%Z →
  ∃ g', add_nodes g num = Ok g'
        ∧ edges_src g' = edges_src g
        ∧ number_of_nodes g' = (number_of_nodes g + Z.to_nat num)%nat.
Proof.
  intros Hnum. unfold add_nodes. case_decide as H0.
  - exists g. subst num. repeat split. simpl. lia.
  - rewrite decide_True by lia. by eexists.
Qed.

Lemma max_list_lt (ids : list nat) n :
  ids ≠ [] → Forall (λ i, (i < n)%nat) ids → (max_list ids < n)%nat.
Proof.
  intros Hne Hids. induction Hids as [|i ids Hi Hids IH]; [done|].
  simpl. destruct ids as [|j ids]; [simpl; lia|].
  specialize (IH ltac:(done)). lia.
Qed.

Lemma rows_match_true a n d rest :
  Array.shape a = d :: rest → d = n → rows_match a n = true.
Proof.
  intros Ha Hd. unfold rows_match. rewrite Ha.
  by apply bool_decide_eq_true.
Qed.

Lemma index_success element_types symbol :
  symbol ∈ element_types → is_ok (index element_types symbol).
Proof.
  intros Hin. unfold index.
  destruct (list_find (λ x, x = symbol) element_types) as [[i x]|] eqn:Hfind;
    [done|].
  apply list_find_None in Hfind.
  rewrite Forall_forall in Hfind. by destruct (Hfind symbol Hin).
Qed.

Lemma mapM_length {A B} (f : A → result B) l k :
  mapM f l = Ok k → length k = length l.
Proof.
  revert k. induction l as [|x l IH]; intros k H; simpl in H.
  - by injection H as <-.
  - destruct (f x) as [y|]; [simpl in H|done].
    destruct (mapM f l) as [k'|]; [simpl in H|done].
    injection H as <-. simpl. f_equal. by apply IH.
Qed.

Lemma mapM_success {A B} (f : A → result B) l :
  Forall (λ x, is_ok (f x)) l → ∃ k, mapM f l = Ok k.
Proof.
  induction 1 as [|x l Hx Hl (k & IH)]; simpl; [by eexists|].
  destruct (f x) as [y|]; [simpl|done]. rewrite IH. simpl. by eexists.
Qed.

Lemma hstack_Ok rows a :
  hstack rows = Ok a → Array.shape a = [length rows].
Proof. destruct rows; [done|]. by intros [= <-]. Qed.

(** *** Rows of arrays *)

Lemma chunks_lookup {A} n k (l : list A) e :
  (e < n)%nat → Array.chunks n k l !! e = Some (take k (drop (e * k) l)).
Proof.
  revert l e. induction n as [|n IH]; intros l [|e] He; simpl; try lia.
  - done.
  - rewrite IH by lia. by rewrite drop_drop.
Qed.

Lemma bind_piece {A B} (f : A → list B) m xs e x :
  Forall (λ y, length (f y) = m) xs →
  xs !! e = Some x →
  take m (drop (e * m) (xs ≫= f)) = f x.
Proof.
  intros Hlen. revert e. induction Hlen as [|y xs Hy Hxs IH]; intros e He;
    [done|].
  rewrite bind_cons. destruct e as [|e]; simpl in He.
  - injection He as ->. rewrite Nat.mul_0_l, drop_0.
    by rewrite take_app_length'.
  - replace (S e * m)%nat with (m + e * m)%nat by lia.
    rewrite drop_app_add' by done. by apply IH.
Qed.

Lemma take_1_drop {A} (l : list A) e x :
  l !! e = Some x → take 1 (drop e l) = [x].
Proof.
  revert e. induction l as [|y l IH]; intros [|e] He; simpl in *; try done.
  - by injection He as ->.
  - by apply IH.
Qed.

Lemma length_columns k m l : length (Array.columns k m l) = m.
Proof. unfold Array.columns. by rewrite length_fmap, length_seq. Qed.

(** A row of a product is the product of the row. *)
Lemma matmul_row a b c n k e :
  Array.shape a = [n; k] →
  Array.matmul a b = Ok c →
  (e < n)%nat →
  ∃ row shift,
    Array.index0 a e = Ok row
    ∧ Array.index0 c e = Ok shift
    ∧ Array.matmul row b = Ok shift.
Proof.
  intros Ha Hc He. unfold Array.matmul in Hc. rewrite Ha in Hc.
  unfold Array.index0 at 1. rewrite Ha, decide_True by done.
  pose proof (chunks_lookup n k (Array.data a) e He) as Hrow.
  destruct (Array.shape b) as [|k' [|m [|? ?]]] eqn:Hb; try done.
  - case_decide as Hk; [|done]. injection Hc as <-.
    eexists _, _. split; [reflexivity|].
    unfold Array.index0, Array.matmul. simpl. rewrite Hb.
    rewrite !decide_True by done. split; [|reflexivity].
    do 2 f_equal. rewrite !Nat.mul_1_r. apply take_1_drop.
    by rewrite list_lookup_fmap, Hrow.
  - case_decide as Hk; [|done]. injection Hc as <-.
    eexists _, _. split; [reflexivity|].
    unfold Array.index0, Array.matmul. simpl. rewrite Hb.
    rewrite !decide_True by done. split; [|reflexivity].
    do 2 f_equal. rewrite !Nat.mul_1_r.
    apply (bind_piece (λ r, Array.dot r <$> Array.columns k' m (Array.data b))).
    + apply Forall_forall. intros r _.
      by rewrite length_fmap, length_columns.
    + exact Hrow.
Qed.

(** Every row of [np.repeat(a, n, axis=0)] that has [n] rows is [a[0]]. *)
Lemma repeat0_row a n c e :
  Array.wf a →
  Array.repeat0 a n = Ok c →
  rows_match c n = true →
  (e < n)%nat →
  ∃ a0, Array.index0 a 0 = Ok a0 ∧ Array.index0 c e = Ok a0.
Proof.
  unfold Array.wf, Array.repeat0, rows_match, Array.index0.
  intros Hwf Hc Hrows He.
  destruct (Array.shape a) as [|d rest] eqn:Ha; [done|].
  injection Hc as <-. simpl in *.
  apply bool_decide_eq_true in Hrows.
  assert (d = 1%nat) as -> by nia.
  rewrite !decide_True by lia. eexists. split; [reflexivity|].
  do 2 f_equal. simpl. rewrite app_nil_r.
  change (concat (replicate n ?c)) with (replicate n c ≫= id).
  rewrite (bind_piece id (Array.size_of rest) _ e
             (take (Array.size_of rest) (Array.data a))).
  - done.
  - apply Forall_forall. intros x Hx%elem_of_replicate. destruct Hx as [-> _].
    simpl. rewrite length_take. lia.
  - by apply lookup_replicate_2.
Qed.

(** C2.  For bond index arrays whose entries are site indices of the
    structure: whenever [get_graph] returns a graph, it has as many nodes
    as the structure has sites, also when some site is in no bond, and as
    many edges as [src_id] has entries; and [get_graph] does return one
    when the structure is not empty and its species are all in the
    vocabulary, the two index arrays have one length, [images] is
    edges-by-3, [lattice_matrix] is 1-by-3-by-3 and [Z] and [cart_coords]
    have a row per site. *)
Theorem get_graph_counts structure src_id dst_id images lattice_matrix Z
    element_types cart_coords :
  valid_site_indices structure src_id →
  valid_site_indices structure dst_id →
  (∀ g state_attr,
     get_graph structure src_id dst_id images lattice_matrix Z
       element_types cart_coords = Ok (g, state_attr) →
     num_nodes g = length structure ∧ num_edges g = length src_id)
  ∧ (structure ≠ [] →
     Forall (λ s, specie_symbol s ∈ element_types) structure →
     length src_id = length dst_id →
     Array.shape images = [length src_id; 3%nat] →
     Array.shape lattice_matrix = [1%nat; 3%nat; 3%nat] →
     rows_match Z (length structure) = true →
     rows_match cart_coords (length structure) = true →
     is_ok (get_graph structure src_id dst_id images lattice_matrix Z
              element_types cart_coords)).
Proof.
  intros Hsrc Hdst. split.
  - intros g state_attr H. unfold get_graph in H. inv_binds H.
    injection H as <- _.
    repeat match goal with
           | H : set_edata _ _ _ = Ok _ |- _ =>
               apply set_edata_Ok in H as (? & ? & _ & _)
           | H : set_ndata _ _ _ = Ok _ |- _ =>
               apply set_ndata_Ok in H as (? & ? & _)
           | H : add_nodes _ _ = Ok _ |- _ =>
               apply add_nodes_Ok in H as (? & _ & ?)
           | H : graph _ _ = Ok _ |- _ =>
               apply graph_Ok in H as (? & _ & _)
           end.
    unfold num_nodes, num_edges in *. split; [lia | congruence].
  - intros Hne Hspecies Hlen Himages Hlattice HZ Hcart.
    assert (Hnodes :
      (match src_id ++ dst_id with [] => 0 | ids => S (max_list ids) end
       ≤ length structure)%nat).
    { destruct (src_id ++ dst_id) as [|i ids] eqn:Hids; [lia|].
      assert (max_list (i :: ids) < length structure)%nat; [|lia].
      apply max_list_lt; [done|]. rewrite <- Hids. by apply Forall_app. }
    unfold get_graph, graph. rewrite decide_True by done. simpl.
    match goal with
    | |- context [add_nodes ?g0 ?n] =>
        destruct (add_nodes_success g0 n) as (g1 & -> & Hsrc1 & Hn1)
    end.
    { unfold num_nodes; simpl in Hnodes |- *. lia. }
    simpl in Hsrc1, Hn1. simpl.
    assert (HN1 : number_of_nodes g1 = length structure).
    { rewrite Hn1. unfold num_nodes; simpl in Hnodes |- *. lia. }
    destruct (set_edata_success g1 "pbc_offset" images)
      as (g2 & -> & Hsrc2 & Hn2).
    { eapply rows_match_true; [exact Himages|]. unfold num_edges. congruence. }
    simpl. unfold Array.repeat0. rewrite Hlattice. simpl.
    match goal with
    | |- context [set_edata g2 "lattice" ?l] =>
        destruct (set_edata_success g2 "lattice" l) as (g3 & -> & Hsrc3 & Hn3)
    end.
    { eapply rows_match_true; [reflexivity|]. unfold num_edges. lia. }
    simpl.
    destruct (set_ndata_success g3 "attr" Z) as (g4 & -> & Hsrc4 & Hn4).
    { unfold num_nodes. by rewrite Hn3, Hn2, HN1. }
    simpl.
    destruct (mapM_success (λ s, index element_types (specie_symbol s)) structure)
      as (types & Htypes).
    { eapply Forall_impl; [exact Hspecies|]. intros s. apply index_success. }
    rewrite Htypes. simpl.
    pose proof (mapM_length _ _ _ Htypes) as Hlen_types.
    destruct types as [|ty types];
      [destruct structure; [done | simpl in Hlen_types; lia]|].
    simpl.
    match goal with
    | |- context [set_ndata g4 "node_type" ?a] =>
        destruct (set_ndata_success g4 "node_type" a) as (g5 & -> & Hsrc5 & Hn5)
    end.
    { eapply rows_match_true; [reflexivity|]. unfold num_nodes.
      rewrite Hn4, Hn3, Hn2, HN1. simpl in *. lia. }
    simpl.
    destruct (set_ndata_success g5 "pos" cart_coords)
      as (g6 & -> & Hsrc6 & Hn6).
    { unfold num_nodes. by rewrite Hn5, Hn4, Hn3, Hn2, HN1. }
    simpl. unfold Array.index0. rewrite Hlattice. simpl.
    unfold Array.matmul. rewrite Himages. simpl.
    match goal with
    | |- context [set_edata g6 "pbc_offshift" ?a] =>
        destruct (set_edata_success g6 "pbc_offshift" a) as (g7 & -> & _ & _)
    end.
    { eapply rows_match_true; [reflexivity|]. unfold num_edges. congruence. }
    done.
Qed.

(** C6, as the code has it.  When [get_graph] returns, the graph stores
    the image offsets under "pbc_offset", a copy of [lattice_matrix[0]]
    per edge under "lattice", and under "pbc_offshift" the product
    [matmul(images, lattice_matrix[0])]; so that, for every edge, the
    stored shift is the product of the edge's offset with the whole
    lattice stored for the edge, not with one row of it. *)
Theorem pbc_offshift_is_offset_times_lattice structure src_id dst_id images
    lattice_matrix Z element_types cart_coords g state_attr :
  Array.wf lattice_matrix →
  length (Array.shape images) = 2%nat →
  get_graph structure src_id dst_id images lattice_matrix Z
    element_types cart_coords = Ok (g, state_attr) →
  ∃ lattice_0 lattice pbc_offshift,
    Array.index0 lattice_matrix 0 = Ok lattice_0
    ∧ Array.matmul images lattice_0 = Ok pbc_offshift
    ∧ edata g !! "pbc_offset" = Some images
    ∧ edata g !! "lattice" = Some lattice
    ∧ edata g !! "pbc_offshift" = Some pbc_offshift
    ∧ ∀ e, (e < num_edges g)%nat →
        ∃ offset shift,
          Array.index0 images e = Ok offset
          ∧ Array.index0 lattice e = Ok lattice_0
          ∧ Array.index0 pbc_offshift e = Ok shift
          ∧ Array.matmul offset lattice_0 = Ok shift.
Proof.
  intros Hwf Hrank H. unfold get_graph in H. inv_binds H.
  injection H as <- _.
  repeat match goal with
         | H : set_edata _ _ _ = Ok _ |- _ =>
             apply set_edata_Ok in H as (? & _ & ? & ?)
         | H : set_ndata _ _ _ = Ok _ |- _ =>
             apply set_ndata_Ok in H as (? & _ & ?)
         | H : add_nodes _ _ = Ok _ |- _ =>
             apply add_nodes_Ok in H as (? & ? & _)
         | H : graph _ _ = Ok _ |- _ =>
             apply graph_Ok in H as (? & ? & _)
         end.
  match goal with
  | Hrep : Array.repeat0 lattice_matrix _ = Ok ?l,
    Hidx : Array.index0 lattice_matrix 0 = Ok ?l0,
    Hmul : Array.matmul images ?l0 = Ok ?s |- _ =>
      exists l0, l, s; split; [exact Hidx|]; split; [exact Hmul|];
      rename Hrep into Hrepeat; rename Hidx into Hindex;
      rename Hmul into Hmatmul
  end.
  unfold num_edges in *.
  repeat match goal with
         | H : edata ?x = _ |- context [edata ?x] => rewrite H
         end.
  split; [by rewrite !lookup_insert_ne, lookup_insert_eq by done|].
  split; [by rewrite lookup_insert_ne, lookup_insert_eq by done|].
  split; [by rewrite lookup_insert_eq|].
  intros e He.
  destruct (Array.shape images) as [|n [|k [|? ?]]] eqn:Himages; try done.
  match goal with
  | Hrows : rows_match images _ = true |- _ =>
      unfold rows_match in Hrows; rewrite Himages in Hrows;
      apply bool_decide_eq_true in Hrows
  end.
  destruct (matmul_row images _ _ n k e Himages Hmatmul)
    as (offset & shift & Hoffset & Hshift & Hproduct); [congruence|].
  exists offset, shift. split; [done|]. split; [|done].
  match goal with
  | Hrows : rows_match ?l _ = true |- Array.index0 ?l _ = _ =>
      destruct (repeat0_row lattice_matrix _ l e Hwf Hrepeat Hrows)
        as (a0 & Ha0 & Hrow); [congruence|]
  end.
  congruence.
Qed.

End GraphConverter.

(** ** The graph of the example *)

Section EvaluatedGraph.
Import DGL Converters Examples.

Lemma get_graph_counts_witness :
  num_nodes (get water_graph I).1 = 3%nat
  ∧ num_edges (get water_graph I).1 = 2%nat
  ∧ is_ok water_graph.
Proof.
  destruct (get_graph_counts water water_src water_dst water_images
              water_lattice water_Z ["H"; "O"] water_cart_coords)
    as (Hcounts & Hreturns).
  - repeat constructor.
  - repeat constructor.
  - destruct (Hcounts (get water_graph I).1 (get water_graph I).2 eq_refl)
      as (Hnodes & Hedges).
    split; [exact Hnodes|]. split; [exact Hedges|].
    apply Hreturns; try reflexivity; [done|].
    repeat constructor; compute_done.
Defined.

Lemma pbc_offshift_is_offset_times_lattice_witness :
  ∃ lattice_0 lattice pbc_offshift,
    Array.index0 water_lattice 0 = Ok lattice_0
    ∧ Array.matmul water_images lattice_0 = Ok pbc_offshift
    ∧ edata (get water_graph I).1 !! "pbc_offset" = Some water_images
    ∧ edata (get water_graph I).1 !! "lattice" = Some lattice
    ∧ edata (get water_graph I).1 !! "pbc_offshift" = Some pbc_offshift
    ∧ ∀ e, (e < num_edges (get water_graph I).1)%nat →
        ∃ offset shift,
          Array.index0 water_images e = Ok offset
          ∧ Array.index0 lattice e = Ok lattice_0
          ∧ Array.index0 pbc_offshift e = Ok shift
          ∧ Array.matmul offset lattice_0 = Ok shift.
Proof.
  apply (pbc_offshift_is_offset_times_lattice water water_src water_dst
           water_images water_lattice water_Z ["H"; "O"] water_cart_coords
           (get water_graph I).1 (get water_graph I).2).
  - reflexivity.
  - reflexivity.
  - reflexivity.
Defined.

(** C6, as the specification words it, fails.  The cell has edges 1, 2
    and 3 along the axes and the two bonds have the offsets (1, 0, 0) and
    (0, 1, 1).  The shifts stored are the offsets times the whole lattice,
    (1, 0, 0) and (0, 2, 3); the offsets times the first lattice row
    (1, 0, 0) would be the two numbers 1 and 0.  Given the lattice as a
    bare 3-by-3 matrix, so that [lattice_matrix[0]] is its first row, the
    call raises before any shift is stored. *)
Lemma pbc_offshift_is_not_offset_times_first_row :
  edata (get water_graph I).1 !! "pbc_offshift"
  = Some (ints [2; 3]%nat [1; 0; 0;  0; 2; 3]%Z)
  ∧ edata (get water_graph I).1 !! "lattice"
    = Some (ints [2; 3; 3]%nat
              [1; 0; 0;  0; 2; 0;  0; 0; 3;   1; 0; 0;  0; 2; 0;  0; 0; 3]%Z)
  ∧ (lattice ← Array.index0 water_lattice 0;
     offshift_first_row_spec water_images lattice)
    = Ok (ints [2]%nat [1; 0]%Z)
  ∧ ints [2; 3]%nat [1; 0; 0;  0; 2; 3]%Z ≠ ints [2]%nat [1; 0]%Z
  ∧ water_graph_bare_lattice
    = Raise (DGLError "Expect number of features to match number of edges.").
Proof. repeat split; compute_done. Qed.

End EvaluatedGraph.

(** * Further properties *)

(** ** The normalizer and the data it is made from *)

Section NormalizerData.
Import Transformer NormalizerData Torch.
Variable sqrt : Qc → Qc.

Lemma reverse_trip_on_grid : Binary64.on_grid Binary64.reverse_trip_close = true.
Proof. vm_compute. reflexivity. Qed.

(** X1.  The round trip in the other direction, on the floats of
    Python.  [transform (inverse_transform y)] gives back the value of
    [y] whenever the multiplication, the addition, the subtraction and
    the division are exact; it gives [y] back within the tolerance
    [2 ** -48] for every mean and value that are quarters from -5 to 5
    and every standard deviation that is such a quarter and not zero;
    and it does not for every finite input: with mean 1 and std 1 the
    addition rounds [y = 2 ** -67] away and the result is [0]. *)
Theorem normalizer_transform_after_inverse_binary64 :
  (∀ mean std y : PrimFloat.float,
     Binary64.value std ≠ Some 0 →
     Binary64.exact PrimFloat.mul Qcmult y std →
     Binary64.exact PrimFloat.add Qcplus (PrimFloat.mul y std) mean →
     Binary64.exact PrimFloat.sub Qcminus
       (Binary64.inverse_transform mean std y) mean →
     Binary64.exact PrimFloat.div Qcdiv
       (PrimFloat.sub (Binary64.inverse_transform mean std y) mean) std →
     Binary64.value
       (Binary64.transform mean std (Binary64.inverse_transform mean std y))
     = Binary64.value y)
  ∧ (∀ i j k : Z,
       (-20 ≤ i ≤ 20)%Z → (-20 ≤ j ≤ 20)%Z → (-20 ≤ k ≤ 20)%Z → k ≠ 0%Z →
       Binary64.close
         (Binary64.transform (Binary64.quarter j) (Binary64.quarter k)
            (Binary64.inverse_transform (Binary64.quarter j)
               (Binary64.quarter k) (Binary64.quarter i)))
         (Binary64.quarter i) = true)
  ∧ Binary64.transform 1 1 (Binary64.inverse_transform 1 1 0x1p-67)
    = 0%float.
Proof.
  split; [|split; [|reflexivity]].
  - intros mean std y Hstd (qy & qs & Hy & Hs & Hmul)
      (qp & qm & Hp & Hm & Hadd) (qi & qm' & Hi & Hm' & Hsub)
      (qd & qs' & Hd & Hs' & Hdiv).
    unfold Binary64.inverse_transform, Binary64.transform in *.
    rewrite Hmul in Hp. injection Hp as <-.
    rewrite Hadd in Hi. injection Hi as <-.
    rewrite Hm in Hm'. injection Hm' as <-.
    rewrite Hsub in Hd. injection Hd as <-.
    rewrite Hs in Hs'. injection Hs' as <-.
    rewrite Hdiv, Hy. f_equal. field. by intros ->.
  - intros i j k Hi Hj Hk Hk0.
    exact (on_grid_spec Binary64.reverse_trip_close j k i
             reverse_trip_on_grid Hi Hj Hk Hk0).
Qed.

(** X2.  From fewer than two samples [from_data] makes a normalizer whose
    standard deviation is not-a-number, without raising: it transforms
    every value, and transforms every value back, to not-a-number. *)
Theorem from_data_too_few_samples data :
  (length data < 2)%nat →
  std (from_data sqrt data) = NaN
  ∧ (∀ x, transform (from_data sqrt data) x = NaN)
  ∧ (∀ y, inverse_transform (from_data sqrt data) y = NaN).
Proof.
  intros Hlen.
  assert (Hstd : std (from_data sqrt data) = NaN).
  { unfold from_data, torch_std. simpl.
    destruct data as [|x [|? ?]]; [| |simpl in Hlen; lia].
    - done.
    - by destruct x as [q|]. }
  split; [done|]. split.
  - intros x. unfold transform. rewrite Hstd.
    by destruct (Float.sub x (mean (from_data sqrt data))).
  - intros y. unfold inverse_transform. rewrite Hstd. by destruct y.
Qed.

End NormalizerData.

(** ** The loss of the property model *)

Section ModelLoss.
Import Transformer NormalizerData Torch Training TrainingSteps.
Variable sqrt : Qc → Qc.

Lemma model_init_fields data_mean data_std name lr decay_steps decay_alpha
    sync_dist self :
  ModelLightningModule.__init__ sqrt data_mean data_std name lr decay_steps
    decay_alpha sync_dist = Ok self →
  ModelLightningModule.mae self = MeanAbsoluteError
  ∧ ModelLightningModule.rmse self = MeanSquaredError_squared_False sqrt
  ∧ ModelLightningModule.loss self
    = (if decide (name = "mse_loss") then mse_loss else l1_loss)
  ∧ ModelLightningModule.data_mean self = data_mean
  ∧ ModelLightningModule.data_std self = data_std.
Proof. by intros [= <-]. Qed.

(** X4.  For a module [__init__] returns, whenever [loss_fn] returns on
    the module's own loss: the predictions have as many entries as the
    labels; with a loss name other than "mse_loss" [Total_Loss] is the
    mean absolute error [MAE]; with "mse_loss" [RMSE] is the square root
    of [Total_Loss]. *)
Theorem model_loss_fn_metrics data_mean data_std name lr decay_steps
    decay_alpha sync_dist self labels preds r :
  ModelLightningModule.__init__ sqrt data_mean data_std name lr decay_steps
    decay_alpha sync_dist = Ok self →
  Model.loss_fn self (ModelLightningModule.loss self) labels preds = Ok r →
  length preds = length labels
  ∧ (name ≠ "mse_loss" → Model.Total_Loss r = Model.MAE r)
  ∧ (name = "mse_loss" → Model.RMSE r = fsqrt sqrt (Model.Total_Loss r)).
Proof.
  intros (Hmae & Hrmse & Hloss & _)%model_init_fields H.
  unfold Model.loss_fn, reshape in H. rewrite Hmae, Hrmse, Hloss in H.
  destruct (decide (length (Model.rescale self preds) = length labels))
    as [Hlen|]; simpl in H; [|done].
  pose proof (eq_sym Hlen) as Hlen'.
  split.
  { rewrite <- Hlen. unfold Model.rescale. by rewrite length_map. }
  unfold MeanAbsoluteError, MeanSquaredError_squared_False, same_shape in H.
  rewrite !(decide_True (P := length labels = _)) in H by done.
  split; intros Hname.
  - rewrite decide_False in H by done. unfold l1_loss in H. simpl in H.
    rewrite sub_same_length in H by done. simpl in H.
    by injection H as <-.
  - rewrite decide_True in H by done. unfold mse_loss in H. simpl in H.
    rewrite sub_same_length in H by done. simpl in H.
    by injection H as <-.
Qed.

End ModelLoss.

(** ** The sign of the losses *)

(** Inequalities between rationals in canonical form, as inequalities
    between their fractions. *)
Ltac Qc_to_Q :=
  unfold Qcle, Qclt, Qcplus, Qcmult, Qcopp, Qcminus, Q2Qc in *;
  simpl in *; rewrite ?Qred_correct in *.

Section LossSign.
Import Torch LossAssumptions.

Lemma Qcmult_nonneg (a b : Qc) : 0 ≤ a → 0 ≤ b → 0 ≤ a * b.
Proof. intros Ha Hb. Qc_to_Q. nra. Qed.

Lemma Qcsquare_nonneg (a : Qc) : 0 ≤ a * a.
Proof. Qc_to_Q. nra. Qed.

Lemma Qcabs_nonneg (a : Qc) : 0 ≤ Float.Qcabs a.
Proof.
  unfold Float.Qcabs. case_decide as Ha; [done|]. Qc_to_Q. lra.
Qed.

Lemma Qcabs_opp (a : Qc) : Float.Qcabs (- a) = Float.Qcabs a.
Proof.
  unfold Float.Qcabs. repeat case_decide; try done.
  - apply Qcle_antisym; Qc_to_Q; lra.
  - by rewrite Qcopp_involutive.
  - exfalso. Qc_to_Q. lra.
Qed.

Lemma Qcmin_nonneg (a b : Qc) : 0 ≤ a → 0 ≤ b → 0 ≤ Float.Qcmin a b.
Proof. intros Ha Hb. unfold Float.Qcmin. by case_decide. Qed.

Lemma Qcdiv_nonneg (a b : Qc) : 0 ≤ a → 0 < b → 0 ≤ a / b.
Proof.
  intros Ha Hb. apply (Qcmult_lt_0_le_reg_r _ _ b Hb).
  rewrite Qcmult_0_l, (Qcmult_comm (a / b)), Qcmult_div_r; [done|].
  intros ->. by apply (Qclt_not_eq 0 0).
Qed.

Lemma of_nat_pos n : n ≠ 0%nat → 0 < Qc_of_Z (Z.of_nat n).
Proof.
  intros Hn. rewrite <- Z2Qc_inj_0.
  apply (proj1 (Z2Qc_inj_lt 0 (Z.of_nat n))). lia.
Qed.

Lemma not_negative_add x y :
  not_negative x → not_negative y → not_negative (Float.add x y).
Proof. destruct x, y; simpl; try done. apply Qcplus_nonneg_nonneg. Qed.

Lemma not_negative_mul x y :
  not_negative x → not_negative y → not_negative (Float.mul x y).
Proof. destruct x, y; simpl; try done. apply Qcmult_nonneg. Qed.

Lemma not_negative_min x y :
  not_negative x → not_negative y → not_negative (Float.min x y).
Proof. destruct x, y; simpl; try done. apply Qcmin_nonneg. Qed.

Lemma not_negative_of_non_negative x : Float.non_negative x → not_negative x.
Proof. by destruct x. Qed.

Lemma not_negative_sum xs : Forall not_negative xs → not_negative (Float.sum xs).
Proof.
  induction 1 as [|x xs Hx Hxs IH]; simpl; [done|].
  by apply not_negative_add.
Qed.

Lemma not_negative_mean xs :
  Forall not_negative xs → not_negative (Float.mean xs).
Proof.
  intros Hxs. unfold Float.mean. pose proof (not_negative_sum xs Hxs) as Hsum.
  destruct (Float.sum xs) as [a|]; simpl in *; [|done].
  case_decide as Hn; [done|]. simpl. apply Qcdiv_nonneg.
  - exact Hsum.
  - apply of_nat_pos. intros Hlen. apply Hn. rewrite Hlen.
    apply Z2Qc_inj_0.
Qed.

Lemma not_negative_reduce kw xs :
  Forall not_negative xs → not_negative (reduce kw xs).
Proof.
  intros Hxs. unfold reduce.
  destruct (kw_reduction kw) as [[]|];
    auto using not_negative_mean, not_negative_sum.
Qed.

Lemma Forall_map_all {A B} (P : B → Prop) (f : A → B) xs :
  (∀ x, P (f x)) → Forall P (map f xs).
Proof. intros Hf. induction xs; simpl; constructor; auto. Qed.

Lemma l1_loss_nonneg kw : nonneg_loss (λ l p, l1_loss l p kw).
Proof.
  intros l p v. unfold l1_loss. destruct (kw_delta kw); [done|].
  destruct (sub l p) as [d|]; [simpl|done]. intros [= <-].
  apply not_negative_reduce, Forall_map_all. intros [a|]; simpl; [|done].
  apply Qcabs_nonneg.
Qed.

Lemma mse_loss_nonneg kw : nonneg_loss (λ l p, mse_loss l p kw).
Proof.
  intros l p v. unfold mse_loss. destruct (kw_delta kw); [done|].
  destruct (sub l p) as [d|]; [simpl|done]. intros [= <-].
  apply not_negative_reduce, Forall_map_all. intros [a|]; simpl; [|done].
  apply Qcsquare_nonneg.
Qed.

Lemma huber_nonneg (delta : Qc) d : 0 < delta → not_negative (huber delta d).
Proof.
  intros Hdelta. destruct d as [x|]; simpl; [|done].
  pose proof (Qcabs_nonneg x) as Hz. revert Hz.
  generalize (Float.Qcabs x). intros z Hz.
  case_decide as Hlt; simpl; Qc_to_Q; nra.
Qed.

Lemma huber_loss_nonneg kw : nonneg_loss (λ l p, huber_loss l p kw).
Proof.
  intros l p v. unfold huber_loss.
  destruct (default (Fin 1) (kw_delta kw)) as [delta|]; [|done].
  case_decide as Hdelta; [|done].
  destruct (sub l p) as [d|]; [simpl|done]. intros [= <-].
  apply not_negative_reduce, Forall_map_all. intros x.
  by apply huber_nonneg.
Qed.

End LossSign.

(** ** More on the loss of the potential module *)

Section PotentialLoss.
Import Torch LossAssumptions Training.PotentialLightningModule.
Variable sqrt : Qc → Qc.

Lemma stress_block_not_negative self loss labels preds t t' s_mae s_rmse :
  nonneg_loss (λ l p, loss l p (loss_params self)) →
  Float.non_negative (stress_weight self) →
  not_negative t →
  stress_block self loss labels preds t = Ok (t', s_mae, s_rmse) →
  not_negative t'.
Proof.
  intros Hloss Hw Ht. unfold stress_block.
  destruct (calc_stresses self); [|by intros [= <- _ _]].
  intros H. inv_binds H. injection H as <- _ _.
  apply not_negative_add; [done|]. apply not_negative_mul.
  - by apply not_negative_of_non_negative.
  - by eapply Hloss.
Qed.

Lemma site_wise_terms_not_negative self loss labels_3 preds_3 m m_mae m_rmse :
  nonneg_loss (λ l p, loss l p (loss_params self)) →
  site_wise_terms self loss labels_3 preds_3 = Ok (m, m_mae, m_rmse) →
  not_negative m.
Proof.
  intros Hloss. unfold site_wise_terms. case_decide as Htarget; intros H.
  - destruct (loss labels_3 preds_3 (loss_params self)) as [a|] eqn:Ha;
      [simpl in H|done].
    destruct (loss labels_3 (neg preds_3) (loss_params self)) as [b|] eqn:Hb;
      [simpl in H|done].
    inv_binds H. injection H as <- _ _.
    apply not_negative_min; by eapply Hloss.
  - match type of H with
    | loss ?l _ _ ≫= _ = _ =>
        destruct (loss l preds_3 (loss_params self)) as [a|] eqn:Ha;
          [simpl in H|done]
    end.
    inv_binds H. injection H as <- _ _. by eapply Hloss.
Qed.

Lemma site_wise_block_not_negative self loss labels preds t t' m_mae m_rmse :
  nonneg_loss (λ l p, loss l p (loss_params self)) →
  Float.non_negative (site_wise_weight self) →
  not_negative t →
  site_wise_block self loss labels preds t = Ok (t', m_mae, m_rmse) →
  not_negative t'.
Proof.
  intros Hloss Hw Ht. unfold site_wise_block.
  destruct (calc_site_wise self); [|by intros [= <- _ _]].
  destruct (site_wise_inputs self labels preds) as [[labels_3 preds_3]|];
    [simpl|done].
  case_decide; [|by intros [= <- _ _]].
  destruct (site_wise_terms self loss labels_3 preds_3)
    as [[[m m_mae'] m_rmse']|] eqn:Hterms; [simpl|done].
  intros [= <- _ _]. apply not_negative_add; [done|].
  apply not_negative_mul.
  - by apply not_negative_of_non_negative.
  - by eapply site_wise_terms_not_negative.
Qed.

Lemma loss_fn_not_negative self loss labels preds num_atoms r :
  Float.non_negative (energy_weight self) →
  Float.non_negative (force_weight self) →
  Float.non_negative (stress_weight self) →
  Float.non_negative (site_wise_weight self) →
  nonneg_loss (λ l p, self_loss self l p (loss_params self)) →
  nonneg_loss (λ l p, loss l p (loss_params self)) →
  loss_fn self loss labels preds num_atoms = Ok r →
  not_negative (Total_Loss r).
Proof.
  intros He Hf Hs Hm Hself Hloss H. unfold loss_fn in H.
  repeat match type of H with
         | getitem ?t ?i ≫= _ = Ok _ =>
             destruct (getitem t i) as [?|]; [simpl in H|done]
         | Torch.div ?a ?b ≫= _ = Ok _ =>
             destruct (Torch.div a b) as [?|]; [simpl in H|done]
         | self_loss self ?a ?b ?k ≫= _ = Ok _ =>
             let E := fresh "Eloss" in
             destruct (self_loss self a b k) as [?|] eqn:E;
               [simpl in H|done]
         | mae self ?a ?b ≫= _ = Ok _ =>
             destruct (mae self a b) as [?|]; [simpl in H|done]
         | rmse self ?a ?b ≫= _ = Ok _ =>
             destruct (rmse self a b) as [?|]; [simpl in H|done]
         end.
  destruct (stress_block self loss labels preds _)
    as [[[t1 s_mae] s_rmse]|] eqn:Hstress; [simpl in H|done].
  destruct (site_wise_block self loss labels preds t1)
    as [[[t2 m_mae] m_rmse]|] eqn:Hsite; [simpl in H|done].
  injection H as <-. simpl.
  eapply site_wise_block_not_negative; [done|done| |exact Hsite].
  eapply stress_block_not_negative; [done|done| |exact Hstress].
  apply not_negative_add; apply not_negative_mul;
    auto using not_negative_of_non_negative; by eapply Hself.
Qed.

(** What [__init__] stores, when it returns. *)
Lemma potential_init_fields ew fw sw mw data_mean data_std name params
    lr decay_steps decay_alpha sync_dist allow target self :
  __init__ sqrt ew fw sw mw data_mean data_std name params
    lr decay_steps decay_alpha sync_dist allow target = Ok self →
  (Float.non_negative ew ∧ Float.non_negative fw
   ∧ Float.non_negative sw ∧ Float.non_negative mw)
  ∧ (energy_weight self = ew ∧ force_weight self = fw
     ∧ stress_weight self = sw ∧ site_wise_weight self = mw)
  ∧ (calc_stresses self = Float.ne0 sw ∧ calc_site_wise self = Float.ne0 mw)
  ∧ (allow_missing_labels self = allow ∧ site_wise_target self = target)
  ∧ (mae self = MeanAbsoluteError
     ∧ rmse self = MeanSquaredError_squared_False sqrt)
  ∧ loss_params self = default no_kwargs params
  ∧ loss self = (if decide (name = "mse_loss") then mse_loss
                 else if decide (name = "huber_loss") then huber_loss
                 else l1_loss).
Proof.
  unfold __init__, assert_ge0.
  destruct (Float.ge0 ew) eqn:He; [simpl|done].
  destruct (Float.ge0 fw) eqn:Hf; [simpl|done].
  destruct (Float.ge0 sw) eqn:Hs; [simpl|done].
  destruct (Float.ge0 mw) eqn:Hm; [simpl|done].
  intros [= <-]. simpl. by rewrite !ge0_non_negative.
Qed.

(** The loss [__init__] selects returns nothing below zero. *)
Lemma selected_loss_nonneg (name : string) kw :
  nonneg_loss (λ l p,
    (if decide (name = "mse_loss") then mse_loss
     else if decide (name = "huber_loss") then huber_loss
     else l1_loss) l p kw).
Proof.
  repeat case_decide;
    auto using mse_loss_nonneg, huber_loss_nonneg, l1_loss_nonneg.
Qed.

(** X6.  The total loss of a constructed module is never negative: for
    a module [__init__] returned, whatever the loss name, the keyword
    arguments and the tensors, a [Total_Loss] that [loss_fn] (called with
    the module's own loss, as [step] does) returns is zero, positive or
    not-a-number. *)
Theorem init_total_loss_not_negative ew fw sw mw data_mean data_std name
    params lr decay_steps decay_alpha sync_dist allow target self
    labels preds num_atoms r :
  __init__ sqrt ew fw sw mw data_mean data_std name params
    lr decay_steps decay_alpha sync_dist allow target = Ok self →
  loss_fn self (self_loss self) labels preds num_atoms = Ok r →
  ¬ Float.negative (Total_Loss r).
Proof.
  intros Hinit H.
  apply potential_init_fields in Hinit
    as ((He & Hf & Hs & Hm) & (Hew & Hfw & Hsw & Hmw) & _ & _ & _ & _ & Hloss).
  assert (Hnonneg : nonneg_loss (λ l p, self_loss self l p (loss_params self))).
  { unfold self_loss. rewrite Hloss. apply selected_loss_nonneg. }
  assert (Hnn : not_negative (Total_Loss r)).
  { eapply loss_fn_not_negative; [..|exact H]; try done; congruence. }
  destruct (Total_Loss r) as [q|]; simpl in *.
  - by apply Qcle_not_lt.
  - tauto.
Qed.

Ltac bind_head :=
  match goal with
  | |- @mbind result _ _ _ _ ?r = _ =>
      destruct r as [?|?]; simpl; try reflexivity
  end.

Lemma isnan_neg a : isnan (neg a) = isnan a.
Proof.
  unfold isnan, neg. rewrite map_map. apply map_ext. by intros [q|].
Qed.

Lemma abs_neg a : abs (neg a) = abs a.
Proof.
  unfold abs, neg. rewrite map_map. apply map_ext. intros [q|]; simpl; [|done].
  by rewrite Qcabs_opp.
Qed.

Lemma site_wise_inputs_neg_labels self labels preds labels3 :
  labels !! 3%nat = Some labels3 →
  site_wise_inputs self (<[3%nat := neg labels3]> labels) preds
  = (λ lp, (neg lp.1, lp.2)) <$> site_wise_inputs self labels preds.
Proof.
  intros H3. unfold site_wise_inputs.
  rewrite (getitem_insert_eq labels 3 (neg labels3) labels3 H3).
  rewrite (getitem_Some labels 3 labels3 H3). simpl.
  destruct (allow_missing_labels self).
  - rewrite isnan_neg, mask_index_neg.
    destruct (mask_index labels3 _) as [l|]; simpl; [|done].
    destruct (getitem preds 3) as [p|]; simpl; [|done].
    by destruct (mask_index p _).
  - by destruct (getitem preds 3).
Qed.

Lemma site_wise_block_neg_labels self loss labels preds labels3 total_loss :
  site_wise_target self = Some "absolute" →
  labels !! 3%nat = Some labels3 →
  site_wise_block self loss (<[3%nat := neg labels3]> labels) preds total_loss
  = site_wise_block self loss labels preds total_loss.
Proof.
  intros Htarget H3. unfold site_wise_block.
  destruct (calc_site_wise self); [|done].
  rewrite site_wise_inputs_neg_labels by done.
  destruct (site_wise_inputs self labels preds) as [[l p]|]; simpl; [|done].
  rewrite length_neg. case_decide; [|done].
  unfold site_wise_terms. rewrite Htarget.
  rewrite decide_False by done. rewrite decide_True by done.
  by rewrite abs_neg.
Qed.

(** X7.  Under the "absolute" target the sign of the site-wise labels
    is not read: negating [labels[3]] changes nothing of what [loss_fn]
    returns or raises, with or without missing labels. *)
Theorem absolute_target_ignores_label_sign self loss labels preds num_atoms
    labels3 :
  site_wise_target self = Some "absolute" →
  labels !! 3%nat = Some labels3 →
  loss_fn self loss (<[3%nat := neg labels3]> labels) preds num_atoms
  = loss_fn self loss labels preds num_atoms.
Proof.
  intros Htarget H3. unfold loss_fn.
  rewrite !(getitem_insert_ne labels) by done.
  do 12 bind_head.
  rewrite stress_block_insert_3_labels.
  destruct (stress_block self loss labels preds _) as [[[t s_mae] s_rmse]|];
    simpl; [|done].
  by rewrite site_wise_block_neg_labels.
Qed.


Lemma stress_block_off self loss labels preds total_loss :
  calc_stresses self = false →
  stress_block self loss labels preds total_loss
  = Ok (total_loss, zeros_1, zeros_1).
Proof. intros H. unfold stress_block. by rewrite H. Qed.

Lemma site_wise_block_off self loss labels preds total_loss :
  calc_site_wise self = false →
  site_wise_block self loss labels preds total_loss
  = Ok (total_loss, zeros_1, zeros_1).
Proof. intros H. unfold site_wise_block. by rewrite H. Qed.

Lemma site_wise_block_insert_2 self loss labels preds x y total_loss :
  site_wise_block self loss (<[2%nat := x]> labels) (<[2%nat := y]> preds)
    total_loss
  = site_wise_block self loss labels preds total_loss.
Proof.
  unfold site_wise_block, site_wise_inputs.
  by rewrite !(getitem_insert_ne labels), !(getitem_insert_ne preds) by done.
Qed.

(** X8.  A term of weight zero is not computed.  For a module [__init__]
    returned with [stress_weight] zero, [loss_fn] does not read the
    stress entries [labels[2]] and [preds[2]], and the stress metrics it
    returns are zero whatever the stresses; likewise, with
    [site_wise_weight] zero, for the site-wise entries [labels[3]] and
    [preds[3]] and the site-wise metrics. *)
Theorem zero_weight_terms_are_skipped ew fw sw mw data_mean data_std name
    params lr decay_steps decay_alpha sync_dist allow target self
    loss labels preds num_atoms :
  __init__ sqrt ew fw sw mw data_mean data_std name params
    lr decay_steps decay_alpha sync_dist allow target = Ok self →
  (sw = Fin 0 →
   (∀ x y,
      loss_fn self loss (<[2%nat := x]> labels) (<[2%nat := y]> preds)
        num_atoms
      = loss_fn self loss labels preds num_atoms)
   ∧ ∀ r, loss_fn self loss labels preds num_atoms = Ok r →
          Stress_MAE r = zeros_1 ∧ Stress_RMSE r = zeros_1)
  ∧ (mw = Fin 0 →
     (∀ x y,
        loss_fn self loss (<[3%nat := x]> labels) (<[3%nat := y]> preds)
          num_atoms
        = loss_fn self loss labels preds num_atoms)
     ∧ ∀ r, loss_fn self loss labels preds num_atoms = Ok r →
            Site_Wise_MAE r = zeros_1 ∧ Site_Wise_RMSE r = zeros_1).
Proof.
  intros Hinit.
  apply potential_init_fields in Hinit
    as (_ & _ & (Hstress & Hsite) & _).
  split.
  - intros ->. assert (Hoff : calc_stresses self = false) by done.
    split.
    + intros x y. unfold loss_fn.
      rewrite !(getitem_insert_ne labels), !(getitem_insert_ne preds) by done.
      do 12 bind_head.
      rewrite !stress_block_off by done. simpl.
      by rewrite site_wise_block_insert_2.
    + intros r H. unfold loss_fn in H. inv_binds H.
      match goal with
      | Hb : stress_block _ _ _ _ _ = Ok _ |- _ =>
          rewrite stress_block_off in Hb by done; injection Hb as <- <- <-
      end.
      by injection H as <-.
  - intros ->. assert (Hoff : calc_site_wise self = false) by done.
    split.
    + intros x y. unfold loss_fn.
      rewrite !(getitem_insert_ne labels), !(getitem_insert_ne preds) by done.
      do 12 bind_head.
      rewrite stress_block_insert_3, stress_block_insert_3_labels.
      destruct (stress_block self loss labels preds _)
        as [[[t s_mae] s_rmse]|]; simpl; [|done].
      by rewrite !site_wise_block_off.
    + intros r H. unfold loss_fn in H. inv_binds H.
      match goal with
      | Hb : site_wise_block _ _ _ _ _ = Ok _ |- _ =>
          rewrite site_wise_block_off in Hb by done; injection Hb as <- <- <-
      end.
      by injection H as <-.
Qed.


(** Not-a-number spreads through the library losses. *)
Lemma sum_nan xs : NaN ∈ xs → Float.sum xs = NaN.
Proof.
  induction xs as [|x xs IH]; [by intros ?%not_elem_of_nil|].
  intros [<-|Hin]%elem_of_cons; simpl; [done|].
  rewrite IH by done. by destruct x.
Qed.

Lemma mean_nan xs : NaN ∈ xs → Float.mean xs = NaN.
Proof. intros H. unfold Float.mean. by rewrite sum_nan. Qed.

Lemma reduce_nan kw xs : NaN ∈ xs → reduce kw xs = NaN.
Proof.
  intros H. unfold reduce.
  destruct (kw_reduction kw) as [[]|]; auto using sum_nan, mean_nan.
Qed.

Lemma zip_with_sub_nan l p :
  length l = length p → NaN ∈ l → NaN ∈ zip_with Float.sub l p.
Proof.
  revert p. induction l as [|x l IH]; intros p Hlen Hin.
  { by apply not_elem_of_nil in Hin. }
  destruct p as [|y p]; [done|]. simpl in *.
  apply elem_of_cons in Hin as [<-|Hin].
  - apply list_elem_of_here.
  - apply list_elem_of_further, IH; [lia|done].
Qed.

Lemma map_nan (f : float → float) xs :
  f NaN = NaN → NaN ∈ xs → NaN ∈ map f xs.
Proof.
  intros Hf Hin. rewrite <- Hf. by apply (list_elem_of_fmap_2 f).
Qed.

Lemma sub_same_length_eq l p :
  length l = length p → sub l p = Ok (zip_with Float.sub l p).
Proof. intros H. unfold sub, broadcast2. by rewrite decide_True. Qed.

Lemma l1_loss_nan_sensitive kw : nan_sensitive (λ l p, l1_loss l p kw).
Proof.
  intros l p v Hlen Hin. unfold l1_loss.
  destruct (kw_delta kw); [done|]. rewrite sub_same_length_eq by done. simpl.
  intros [= <-]. apply reduce_nan, map_nan; [done|].
  by apply zip_with_sub_nan.
Qed.

Lemma mse_loss_nan_sensitive kw : nan_sensitive (λ l p, mse_loss l p kw).
Proof.
  intros l p v Hlen Hin. unfold mse_loss.
  destruct (kw_delta kw); [done|]. rewrite sub_same_length_eq by done. simpl.
  intros [= <-]. apply reduce_nan, map_nan; [done|].
  by apply zip_with_sub_nan.
Qed.

Lemma huber_loss_nan_sensitive kw : nan_sensitive (λ l p, huber_loss l p kw).
Proof.
  intros l p v Hlen Hin. unfold huber_loss.
  destruct (default (Fin 1) (kw_delta kw)) as [delta|]; [|done].
  case_decide; [|done]. rewrite sub_same_length_eq by done. simpl.
  intros [= <-]. apply reduce_nan, map_nan; [done|].
  by apply zip_with_sub_nan.
Qed.

Lemma selected_loss_nan_sensitive (name : string) kw :
  nan_sensitive (λ l p,
    (if decide (name = "mse_loss") then mse_loss
     else if decide (name = "huber_loss") then huber_loss
     else l1_loss) l p kw).
Proof.
  repeat case_decide;
    auto using mse_loss_nan_sensitive, huber_loss_nan_sensitive,
               l1_loss_nan_sensitive.
Qed.

Lemma site_wise_terms_nan self loss labels_3 preds_3 m m_mae m_rmse :
  nan_sensitive (λ l p, loss l p (loss_params self)) →
  length labels_3 = length preds_3 →
  NaN ∈ labels_3 →
  site_wise_terms self loss labels_3 preds_3 = Ok (m, m_mae, m_rmse) →
  m = NaN.
Proof.
  intros Hloss Hlen Hin. unfold site_wise_terms.
  case_decide as Hsymbreak; intros H.
  - destruct (loss labels_3 preds_3 (loss_params self)) as [a|] eqn:Ha;
      [simpl in H|done].
    destruct (loss labels_3 (neg preds_3) (loss_params self)) as [b|] eqn:Hb;
      [simpl in H|done].
    inv_binds H. injection H as <- _ _.
    apply Hloss in Ha as ->; [|done..].
    apply Hloss in Hb as ->; [done| |done].
    by rewrite length_neg.
  - match type of H with
    | loss ?l _ _ ≫= _ = _ =>
        destruct (loss l preds_3 (loss_params self)) as [a|] eqn:Ha;
          [simpl in H|done]
    end.
    inv_binds H. injection H as <- _ _.
    apply Hloss in Ha as ->; [done| |].
    + case_decide; [|done]. unfold abs. by rewrite length_map.
    + case_decide; [|done]. by apply map_nan.
Qed.

(** X9.  Without [allow_missing_labels] a missing site-wise label spoils
    the loss.  For a module [__init__] returned with
    [allow_missing_labels] off and a [site_wise_weight] that is not zero,
    whatever the loss name and the target policy: if a site-wise label is
    not-a-number, a [Total_Loss] that [loss_fn] returns is
    not-a-number. *)
Theorem nan_label_makes_total_loss_nan ew fw sw mw data_mean data_std name
    params lr decay_steps decay_alpha sync_dist target self
    labels preds num_atoms labels3 preds3 r :
  __init__ sqrt ew fw sw mw data_mean data_std name params
    lr decay_steps decay_alpha sync_dist false target = Ok self →
  mw ≠ Fin 0 →
  labels !! 3%nat = Some labels3 →
  preds !! 3%nat = Some preds3 →
  length labels3 = length preds3 →
  NaN ∈ labels3 →
  loss_fn self (self_loss self) labels preds num_atoms = Ok r →
  Total_Loss r = NaN.
Proof.
  intros Hinit Hmw Hl3 Hp3 Hlen Hin H.
  apply potential_init_fields in Hinit
    as ((_ & _ & _ & Hm) & _ & (_ & Hsite) & (Hallow & _) & _ & _ & Hloss).
  assert (Hon : calc_site_wise self = true).
  { rewrite Hsite. destruct mw as [q|]; simpl in *; [|done].
    apply bool_decide_eq_true. congruence. }
  assert (Hsens :
    nan_sensitive (λ l p, self_loss self l p (loss_params self))).
  { unfold self_loss. rewrite Hloss. apply selected_loss_nan_sensitive. }
  unfold loss_fn in H. inv_binds H.
  match goal with
  | Hb : site_wise_block _ _ _ _ _ = Ok _ |- _ => rename Hb into Hblock
  end.
  injection H as <-. simpl.
  unfold site_wise_block in Hblock. rewrite Hon in Hblock.
  unfold site_wise_inputs in Hblock. rewrite Hallow in Hblock.
  rewrite (getitem_Some labels 3 labels3 Hl3),
          (getitem_Some preds 3 preds3 Hp3) in Hblock.
  simpl in Hblock.
  rewrite decide_True in Hblock
    by (destruct labels3; [by apply not_elem_of_nil in Hin | simpl; lia]).
  destruct (site_wise_terms self (self_loss self) labels3 preds3)
    as [[[m m_mae] m_rmse]|] eqn:Hterms; [simpl in Hblock|done].
  apply site_wise_terms_nan in Hterms as ->; [|done..].
  injection Hblock as <- _ _.
  destruct (site_wise_weight self);
    match goal with |- Float.add ?t _ = _ => by destruct t end.
Qed.


End PotentialLoss.

(** ** The step of the potential module *)

Section PotentialStep.
Import Torch Training.PotentialLightningModule TrainingSteps.
Import TrainingSteps.Potential.

Lemma unpack_Ok {A} n (t : list A) : length t = n → unpack n t = Ok t.
Proof. intros H. unfold unpack. by rewrite decide_True. Qed.

Lemma unpack_Raise {A} n (t : list A) :
  length t ≠ n → ∃ msg, unpack n t = Raise (ValueError msg).
Proof.
  intros H. unfold unpack. rewrite decide_False by done.
  case_decide; by eexists.
Qed.

(** X10.  [step] checks the arity of the batch and of the model output
    before any loss is computed.  With [k] one when site-wise values are
    predicted and zero otherwise: unless the batch has [3 + k] targets
    and the model returns [4 + k] tensors, [step] raises a value error;
    when they do, [step] is [loss_fn] on the targets and on the output
    without its fourth tensor (the node features), and the batch size it
    returns beside the results is the number of predicted energies. *)
Theorem potential_step_arity self b output :
  let k := if calc_site_wise self then 1%nat else 0%nat in
  (length (targets b) ≠ (3 + k)%nat ∨ length output ≠ (4 + k)%nat →
   ∃ msg, step self b output = Raise (ValueError msg))
  ∧ (length (targets b) = (3 + k)%nat → length output = (4 + k)%nat →
     ∃ e f s h rest,
       output = e :: f :: s :: h :: rest
       ∧ length rest = k
       ∧ step self b output
         = (λ r, (r, length e))
             <$> loss_fn self (self_loss self) (targets b)
                   (e :: f :: s :: rest) (batch_num_nodes b)).
Proof.
  intros k. subst k. unfold step, forward. split.
  - intros Hbad. destruct (calc_site_wise self).
    + destruct (decide (length (targets b) = 4%nat)) as [Ht|Ht].
      * rewrite (unpack_Ok 4 (targets b)) by done. simpl.
        destruct Hbad as [Hbad|Hbad]; [done|].
        destruct (unpack_Raise 5 output Hbad) as (msg & ->). by exists msg.
      * destruct (unpack_Raise 4 (targets b) Ht) as (msg & ->). by exists msg.
    + destruct (decide (length (targets b) = 3%nat)) as [Ht|Ht].
      * rewrite (unpack_Ok 3 (targets b)) by done. simpl.
        destruct Hbad as [Hbad|Hbad]; [done|].
        destruct (unpack_Raise 4 output Hbad) as (msg & ->). by exists msg.
      * destruct (unpack_Raise 3 (targets b) Ht) as (msg & ->). by exists msg.
  - intros Ht Ho. destruct (calc_site_wise self).
    + destruct output as [|e [|f [|s [|h [|m [|? ?]]]]]]; try done.
      exists e, f, s, h, [m]. split; [done|]. split; [done|].
      rewrite (unpack_Ok 4 (targets b)) by done. simpl.
      by destruct (loss_fn self _ _ _ _).
    + destruct output as [|e [|f [|s [|h [|? ?]]]]]; try done.
      exists e, f, s, h, []. split; [done|]. split; [done|].
      rewrite (unpack_Ok 3 (targets b)) by done. simpl.
      by destruct (loss_fn self _ _ _ _).
Qed.

End PotentialStep.

(** ** What [xavier_init] requires *)

Section XavierRequirements.
Import Torch Training.
Variable sqrt : Qc → Qc.
Hypothesis sqrt_0 : sqrt 0 = 0.

Lemma bound_of_empty gain : bound sqrt gain [0%nat] = Raise ZeroDivisionError.
Proof.
  change (bound sqrt gain [0%nat])
    with (truediv (Float.mul gain (fsqrt sqrt (Float.of_nat 6)))
                  (fsqrt sqrt (Fin (Qc_of_Z 0)))).
  unfold fsqrt at 2. rewrite Z2Qc_inj_0.
  rewrite (decide_True (P := 0 ≤ 0)) by apply Qcle_refl.
  rewrite sqrt_0. unfold truediv. by rewrite decide_True.
Qed.

Lemma mapM_first_raise {A B} (f : A → result B) l1 x l2 e :
  Forall (λ x, is_ok (f x)) l1 → f x = Raise e →
  mapM f (l1 ++ x :: l2) = Raise e.
Proof.
  intros Hl1 Hx. induction Hl1 as [|y l1 Hy _ IH]; simpl.
  - by rewrite Hx.
  - destruct (f y); [simpl|done]. by rewrite IH.
Qed.

Lemma init_param_requirements gain distribution init_fn name shape action :
  init_param sqrt gain distribution init_fn name shape = Ok action →
  endswith name ".bias" = true ∨ (2 ≤ length shape)%nat
  ∨ ∃ fan, shape = [fan] ∧ fan ≠ 0%nat.
Proof.
  unfold init_param. destruct (endswith name ".bias"); [by left|].
  destruct (decide (length shape < 2)%nat) as [Hrank|Hrank];
    [|intros _; right; left; lia].
  destruct shape as [|fan [|? ?]]; [done| |simpl in Hrank; lia].
  destruct (decide (fan = 0%nat)) as [->|Hfan].
  - by rewrite bound_of_empty.
  - intros _. right. right. by exists fan.
Qed.

(** X11.  What [xavier_init] requires.  Whenever it returns, the
    distribution is "uniform" or "normal" and every parameter either has
    a name ending in ".bias", or has two or more dimensions, or has one
    dimension that is not empty.  With such a distribution, a parameter
    that is none of these, after parameters that are all zero-filled
    biases, makes the call fail: with an index error if it has no
    dimension (a scalar), with a division by zero if its one dimension is
    empty.  (The initialisers of [torch] that are called may raise
    themselves; the statement is about the runs that return and about
    a failure before any of them is called.)  Here [sqrt 0 = 0]. *)
Theorem xavier_init_requirements model gain distribution :
  (∀ inits,
     xavier_init sqrt model gain distribution = Ok inits →
     (distribution = "uniform" ∨ distribution = "normal")
     ∧ Forall (λ p : string * list nat,
                 endswith p.1 ".bias" = true ∨ (2 ≤ length p.2)%nat
                 ∨ ∃ fan, p.2 = [fan] ∧ fan ≠ 0%nat) model)
  ∧ ∀ before name shape after,
      distribution = "uniform" ∨ distribution = "normal" →
      model = before ++ (name, shape) :: after →
      Forall (λ p : string * list nat, endswith p.1 ".bias" = true) before →
      endswith name ".bias" = false →
      (shape = [] →
       xavier_init sqrt model gain distribution
       = Raise (IndexError "tuple index out of range"))
      ∧ (shape = [0%nat] →
         xavier_init sqrt model gain distribution = Raise ZeroDivisionError).
Proof.
  split.
  - intros inits H. unfold xavier_init in H.
    assert (Hd : distribution = "uniform" ∨ distribution = "normal").
    { repeat case_decide; auto. done. }
    split; [done|].
    destruct (if decide (distribution = "uniform") then Ok xavier_uniform_
              else if decide (distribution = "normal") then Ok xavier_normal_
              else Raise (ValueError ("Invalid distribution: " +:+ distribution)))
      as [init_fn|]; [simpl in H|done].
    apply mapM_Ok_Forall2 in H.
    induction H as [|p q model inits Hp _ IH]; constructor; [|done].
    destruct (init_param sqrt gain distribution init_fn p.1 p.2)
      as [action|] eqn:Haction; [|done].
    by eapply init_param_requirements.
  - intros before name shape after Hd -> Hbefore Hname.
    unfold xavier_init.
    assert (∃ init_fn,
      (if decide (distribution = "uniform") then Ok xavier_uniform_
       else if decide (distribution = "normal") then Ok xavier_normal_
       else Raise (ValueError ("Invalid distribution: " +:+ distribution)))
      = Ok init_fn) as (init_fn & ->).
    { destruct Hd as [->| ->]; by eexists. }
    simpl.
    assert (Hok : Forall (λ p : string * list nat,
      is_ok (i ← init_param sqrt gain distribution init_fn p.1 p.2;
             Ok (p.1, i))) before).
    { eapply Forall_impl; [exact Hbefore|]. intros p Hp.
      unfold init_param. by rewrite Hp. }
    split; intros ->; apply mapM_first_raise; try done; simpl;
      unfold init_param; rewrite Hname; simpl.
    + done.
    + by rewrite bound_of_empty.
Qed.

End XavierRequirements.

(** ** More on [on_load_checkpoint] *)

Section CheckpointUnion.
Import Training.PotentialLightningModule.
Context {V : Type}.
Implicit Types (live sd : gmap string V) (ckpt : gmap string (entry V)).

Lemma live_keys live key :
  key ∈ (map_to_list live).*1 ↔ is_Some (live !! key).
Proof.
  split.
  - intros ([k v] & -> & Hkv)%list_elem_of_fmap.
    apply elem_of_map_to_list in Hkv. by exists v.
  - intros [v Hv]. apply list_elem_of_fmap. exists (key, v).
    split; [done|]. by apply elem_of_map_to_list.
Qed.

Lemma on_load_checkpoint_closed_form live ckpt sd :
  ckpt !! "state_dict" = Some (StateDict sd) →
  on_load_checkpoint live ckpt
  = Ok (<["state_dict" := StateDict (sd ∪ live)]> ckpt).
Proof.
  intros Hsd. unfold on_load_checkpoint.
  destruct (backfill_spec live (map_to_list live).*1) with (ckpt := ckpt) (sd := sd)
    as (sd' & -> & Hlook); [|done|].
  { intros key. apply live_keys. }
  do 3 f_equal. apply map_eq. intros k. rewrite Hlook, lookup_union.
  case_decide as Hin; [done|].
  destruct (live !! k) as [v|] eqn:Hv; [|done].
  exfalso. apply Hin, live_keys. by exists v.
Qed.

Lemma backfill_Raise live keys e :
  foldl (λ acc key, acc ≫= backfill_key live key) (Raise e) keys = Raise e.
Proof. induction keys as [|key keys IH]; simpl; done. Qed.

(** X12.  Loading fills the checkpoint once and for all.  When the
    checkpoint holds a saved state dict [sd], [on_load_checkpoint] makes
    it the union of [sd] and the live state dict, [sd] winning on the keys
    of both; the state dict then has every key of the live model; loading
    the result again changes nothing; and a checkpoint that already has
    every key of the live model is returned as it is. *)
Theorem on_load_checkpoint_completes live ckpt sd :
  ckpt !! "state_dict" = Some (StateDict sd) →
  ∃ ckpt',
    on_load_checkpoint live ckpt = Ok ckpt'
    ∧ ckpt' = <["state_dict" := StateDict (sd ∪ live)]> ckpt
    ∧ (∀ key, is_Some (live !! key) →
         ∃ sd', get_state_dict ckpt' = Ok sd' ∧ is_Some (sd' !! key))
    ∧ on_load_checkpoint live ckpt' = Ok ckpt'
    ∧ ((∀ key, is_Some (live !! key) → is_Some (sd !! key)) → ckpt' = ckpt).
Proof.
  intros Hsd. eexists. split; [by apply on_load_checkpoint_closed_form|].
  split; [done|]. split; [|split].
  - intros key [v Hv]. exists (sd ∪ live). split.
    + unfold get_state_dict. by rewrite lookup_insert_eq.
    + rewrite lookup_union, Hv. by destruct (sd !! key).
  - rewrite (on_load_checkpoint_closed_form live _ (sd ∪ live))
      by apply lookup_insert_eq.
    rewrite insert_insert_eq. do 3 f_equal.
    rewrite <- (assoc_L (∪)). by rewrite (idemp_L (∪) live).
  - intros Hall. rewrite <- (insert_id ckpt "state_dict" (StateDict sd)) at 2
      by done.
    do 2 f_equal. apply map_eq. intros k. rewrite lookup_union.
    destruct (live !! k) as [v|] eqn:Hv.
    + destruct (Hall k) as [w ->]; [by exists v|]. done.
    + by destruct (sd !! k).
Qed.

(** X13.  A checkpoint without a "state_dict" entry: loading raises
    [KeyError("state_dict")] as soon as the live model has a parameter,
    and returns the checkpoint as it is when the live model has none. *)
Theorem on_load_checkpoint_without_state_dict live ckpt :
  ckpt !! "state_dict" = None →
  (live = ∅ → on_load_checkpoint live ckpt = Ok ckpt)
  ∧ (live ≠ ∅ → on_load_checkpoint live ckpt = Raise (KeyError "state_dict")).
Proof.
  intros Hnone. unfold on_load_checkpoint, backfill. split.
  - intros ->. by rewrite map_to_list_empty.
  - intros Hlive. destruct (map_to_list live) as [|[key v] kvs] eqn:Hkvs.
    { by apply map_to_list_empty_iff in Hkvs. }
    simpl. unfold backfill_key at 2, get_state_dict. rewrite Hnone. simpl.
    apply backfill_Raise.
Qed.

End CheckpointUnion.

(** ** More on the graph converter *)

Section GraphContents.
Import DGL Converters.

Lemma graph_fields u v g :
  graph u v = Ok g →
  length u = length v
  ∧ edges_src g = u ∧ edges_dst g = v ∧ ndata g = ∅ ∧ edata g = ∅
  ∧ number_of_nodes g
    = match u ++ v with [] => 0%nat | ids => S (max_list ids) end.
Proof. unfold graph. case_decide; [|done]. by intros [= <-]. Qed.

Lemma add_nodes_fields g num g' :
  add_nodes g num = Ok g' →
  (0 ≤ num)%Z
  ∧ edges_src g' = edges_src g ∧ edges_dst g' = edges_dst g
  ∧ (ndata g = ∅ → ndata g' = ∅) ∧ edata g' = edata g
  ∧ Z.of_nat (number_of_nodes g') = (Z.of_nat (number_of_nodes g) + num)%Z.
Proof.
  unfold add_nodes. case_decide as H0.
  - intros [= <-]. repeat split; try done; lia.
  - case_decide; [|done]. intros [= <-]. simpl. repeat split; try done; try lia.
    intros ->. apply fmap_empty.
Qed.

Lemma set_edata_fields g key value g' :
  set_edata g key value = Ok g' →
  rows_match value (num_edges g) = true
  ∧ edges_src g' = edges_src g ∧ edges_dst g' = edges_dst g
  ∧ number_of_nodes g' = number_of_nodes g
  ∧ ndata g' = ndata g ∧ edata g' = <[key := value]> (edata g).
Proof.
  unfold set_edata. destruct (rows_match value (num_edges g)); [|done].
  by intros [= <-].
Qed.

Lemma set_ndata_fields g key value g' :
  set_ndata g key value = Ok g' →
  rows_match value (num_nodes g) = true
  ∧ edges_src g' = edges_src g ∧ edges_dst g' = edges_dst g
  ∧ number_of_nodes g' = number_of_nodes g
  ∧ ndata g' = <[key := value]> (ndata g) ∧ edata g' = edata g.
Proof.
  unfold set_ndata. destruct (rows_match value (num_nodes g)); [|done].
  by intros [= <-].
Qed.

Lemma index_Ok element_types symbol i :
  index element_types symbol = Ok i →
  element_types !! i = Some symbol
  ∧ ∀ j, (j < i)%nat → element_types !! j ≠ Some symbol.
Proof.
  unfold index.
  destruct (list_find (λ x, x = symbol) element_types) as [[i' x]|] eqn:Hfind;
    [|done].
  intros [= <-]. apply list_find_Some in Hfind as (Hi & -> & Hbefore).
  split; [done|]. intros j Hj Hlook. by apply (Hbefore j symbol Hlook Hj).
Qed.

Lemma hstack_Ok_eq rows a :
  hstack rows = Ok a →
  rows ≠ []
  ∧ a = {| Array.shape := [length rows];
           Array.data := Float.of_nat <$> rows |}.
Proof. destruct rows; [done|]. by intros [= <-]. Qed.

Lemma rows_match_shape a n :
  rows_match a n = true → ∃ rest, Array.shape a = n :: rest.
Proof.
  unfold rows_match. destruct (Array.shape a) as [|d rest]; [done|].
  intros ->%bool_decide_eq_true. by exists rest.
Qed.

Lemma repeat0_shape a n r :
  Array.repeat0 a n = Ok r →
  ∃ d rest, Array.shape a = d :: rest ∧ Array.shape r = (d * n)%nat :: rest.
Proof.
  unfold Array.repeat0. destruct (Array.shape a) as [|d rest]; [done|].
  intros [= <-]. by exists d, rest.
Qed.

(** Unfolds a call of [get_graph] that returned into its steps. *)
Ltac get_graph_steps H :=
  unfold get_graph in H; inv_binds H; injection H as <- <-;
  repeat match goal with
         | H : set_edata _ _ _ = Ok _ |- _ =>
             apply set_edata_fields in H as (? & ? & ? & ? & ? & ?)
         | H : set_ndata _ _ _ = Ok _ |- _ =>
             apply set_ndata_fields in H as (? & ? & ? & ? & ? & ?)
         | H : add_nodes _ _ = Ok _ |- _ =>
             apply add_nodes_fields in H as (? & ? & ? & ? & ? & ?)
         | H : graph _ _ = Ok _ |- _ =>
             apply graph_fields in H as (? & ? & ? & ? & ? & ?)
         end.

(** X14.  What a returned graph holds for the nodes.  Its edges are the
    given end points; it has exactly the node features "attr" ([Z] as
    given), "pos" ([cart_coords] as given) and "node_type", a vector with
    one entry per site, in the order of the structure, which is the
    position of the first occurrence of the site's species symbol in
    [element_types]: node types decode back to the species.  The state
    attributes are two zeros. *)
Theorem get_graph_node_features structure src_id dst_id images lattice_matrix
    Z element_types cart_coords g state_attr :
  get_graph structure src_id dst_id images lattice_matrix Z
    element_types cart_coords = Ok (g, state_attr) →
  state_attr = [Float.zero; Float.zero]
  ∧ edges_src g = src_id ∧ edges_dst g = dst_id
  ∧ ∃ types,
      ndata g
      = {[ "attr" := Z;
           "node_type" := {| Array.shape := [length structure];
                             Array.data := Float.of_nat <$> types |};
           "pos" := cart_coords ]}
      ∧ Forall2 (λ s i,
                   element_types !! i = Some (specie_symbol s)
                   ∧ ∀ j, (j < i)%nat →
                          element_types !! j ≠ Some (specie_symbol s))
                structure types.
Proof.
  intros H. get_graph_steps H.
  split; [done|]. split; [congruence|]. split; [congruence|].
  match goal with
  | Hm : mapM _ structure = Ok ?types, Hs : hstack ?types = Ok _ |- _ =>
      exists types; apply hstack_Ok_eq in Hs as (_ & ->);
      pose proof (mapM_length _ _ _ Hm) as Hlen;
      apply mapM_Ok_Forall2 in Hm; rename Hm into Htypes
  end.
  split.
  - repeat match goal with
           | H : ndata ?x = _ |- context [ndata ?x] => rewrite H
           | H : ndata ?x = ∅ → _ |- _ =>
               let H' := fresh in
               assert (H' : ndata x = ∅) by congruence;
               specialize (H H'); clear H'
           end.
    rewrite Hlen. apply map_eq. intros k.
    destruct (decide (k = "pos")) as [->|Hpos]; [done|].
    destruct (decide (k = "node_type")) as [->|Hnt]; [done|].
    destruct (decide (k = "attr")) as [->|Hattr]; [done|].
    rewrite !lookup_insert_ne by done.
    by rewrite lookup_empty, lookup_singleton_ne.
  - eapply Forall2_impl; [exact Htypes|]. intros s i Hi.
    by apply index_Ok.
Qed.

(** X15.  What [get_graph] requires.  Whenever it returns, the
    structure is not empty and its species are all in [element_types];
    the two index arrays have one length and hold site indices of the
    structure only (an index beyond the last site makes the call raise);
    [images] has a row per edge, [Z] and [cart_coords] a row per site;
    and, if there is an edge, the leading dimension of [lattice_matrix]
    is one. *)
Theorem get_graph_requirements structure src_id dst_id images lattice_matrix
    Z element_types cart_coords g state_attr :
  get_graph structure src_id dst_id images lattice_matrix Z
    element_types cart_coords = Ok (g, state_attr) →
  structure ≠ []
  ∧ Forall (λ s, specie_symbol s ∈ element_types) structure
  ∧ length src_id = length dst_id
  ∧ valid_site_indices structure src_id
  ∧ valid_site_indices structure dst_id
  ∧ rows_match images (length src_id) = true
  ∧ rows_match Z (length structure) = true
  ∧ rows_match cart_coords (length structure) = true
  ∧ (src_id ≠ [] → ∃ rest, Array.shape lattice_matrix = 1%nat :: rest).
Proof.
  intros H. get_graph_steps H.
  match goal with
  | Hm : mapM _ structure = Ok ?types, Hs : hstack ?types = Ok _ |- _ =>
      apply hstack_Ok_eq in Hs as (Hne & ->);
      pose proof (mapM_length _ _ _ Hm) as Hlen;
      apply mapM_Ok_Forall2 in Hm; rename Hm into Htypes
  end.
  match goal with
  | Hr : Array.repeat0 lattice_matrix _ = Ok _ |- _ =>
      apply repeat0_shape in Hr as (d & rest & Hshape & Hrepeated)
  end.
  unfold num_nodes, num_edges in *.
  assert (Hnodes :
    (match src_id ++ dst_id with [] => 0 | ids => S (max_list ids) end
     ≤ length structure)%nat) by lia.
  assert (Hvalid : Forall (λ i, (i < length structure)%nat) (src_id ++ dst_id)).
  { apply Forall_forall. intros i Hi.
    destruct (src_id ++ dst_id) as [|i0 ids] eqn:Hids;
      [by apply not_elem_of_nil in Hi|].
    apply max_list_elem_of_le in Hi. lia. }
  apply Forall_app in Hvalid as (Hsrc & Hdst).
  split. { intros ->. apply Hne. by inversion Htypes. }
  split.
  { clear -Htypes. induction Htypes as [|s i structure types Hi _ IH];
      constructor; [|done].
    simpl in Hi. apply index_Ok in Hi as (Hi & _).
    by eapply list_elem_of_lookup_2. }
  split; [done|]. split; [done|]. split; [done|].
  match goal with
  | Hadd : Z.of_nat (number_of_nodes ?g') = (_ + (_ - _))%Z |- _ =>
      assert (Hcount : number_of_nodes g' = length structure) by lia
  end.
  split; [congruence|]. split; [congruence|]. split; [congruence|].
  intros Hedge.
  match goal with
  | Hrows : rows_match ?l _ = true, Hl : Array.shape ?l = _ |- _ =>
      unfold rows_match in Hrows; rewrite Hl in Hrows;
      apply bool_decide_eq_true in Hrows; rename Hrows into Hd
  end.
  exists rest. rewrite Hshape. f_equal.
  assert (length src_id ≠ 0%nat) by (by destruct src_id).
  match type of Hd with
  | (_ * length (edges_src ?g0))%nat = _ =>
      assert (Hsrc_len : length (edges_src g0) = length src_id) by congruence
  end.
  rewrite Hsrc_len in Hd. nia.
Qed.

End GraphContents.

(** ** The further properties on the examples *)

(** The square root of the examples is zero at zero. *)
Lemma sqrt6_0 : sqrt6 0 = 0.
Proof. compute_done. Qed.

Section EvaluatedFurther.
Import Transformer NormalizerData Torch Training TrainingSteps Examples.
Import DGL Converters.

Lemma normalizer_transform_after_inverse_binary64_witness :
  Binary64.value
    (Binary64.transform 2 0.5 (Binary64.inverse_transform 2 0.5 2))
  = Binary64.value 2%float
  ∧ Binary64.close
      (Binary64.transform (Binary64.quarter 7) (Binary64.quarter (-3))
         (Binary64.inverse_transform (Binary64.quarter 7)
            (Binary64.quarter (-3)) (Binary64.quarter 13)))
      (Binary64.quarter 13) = true.
Proof.
  split.
  - apply (proj1 normalizer_transform_after_inverse_binary64
             2%float 0.5%float 2%float).
    + compute_done.
    + exists (Q2Qc 2), (Q2Qc (1 # 2)). repeat split; compute_done.
    + exists (Q2Qc 1), (Q2Qc 2). repeat split; compute_done.
    + exists (Q2Qc 3), (Q2Qc 2). repeat split; compute_done.
    + exists (Q2Qc 1), (Q2Qc (1 # 2)). repeat split; compute_done.
  - apply (proj1 (proj2 normalizer_transform_after_inverse_binary64)
             13%Z 7%Z (-3)%Z); [lia..|done].
Defined.

Lemma from_data_too_few_samples_witness :
  std (from_data sqrt6 [rat 5 1]) = NaN
  ∧ transform (from_data sqrt6 [rat 5 1]) (rat 5 1) = NaN.
Proof.
  destruct (from_data_too_few_samples sqrt6 [rat 5 1] ltac:(simpl; lia))
    as (Hstd & Htransform & _).
  split; [exact Hstd | apply Htransform].
Defined.

Lemma model_loss_fn_metrics_witness :
  is_ok property_loss
  ∧ Model.RMSE (get property_loss I)
    = fsqrt sqrt6 (Model.Total_Loss (get property_loss I)).
Proof.
  split; [exact I|].
  apply (model_loss_fn_metrics sqrt6 (rat 2 1) (rat 1 2) "mse_loss"
           (rat 1 1000) 1000 (rat 1 100) false property_self
           property_labels property_preds (get property_loss I)
           eq_refl eq_refl).
  reflexivity.
Defined.

Lemma init_total_loss_not_negative_witness :
  ¬ Float.negative
      (PotentialLightningModule.Total_Loss
         (get (run_loss_fn symbreak_module
                 (two_atoms [rat 3 1; rat (-1) 2])
                 (two_atoms [rat 2 1; rat 1 1]) num_atoms_two) I)).
Proof.
  apply (init_total_loss_not_negative sqrt6
           (rat 1 1) (rat 1 1) (rat 0 1) (rat 1 1)
           (rat 0 1) (rat 1 1) "l1_loss" None (rat 1 1000) 1000 (rat 1 100)
           false true (Some "symbreak") symbreak_self
           (two_atoms [rat 3 1; rat (-1) 2])
           (two_atoms [rat 2 1; rat 1 1]) num_atoms_two _ eq_refl eq_refl).
Defined.

Lemma absolute_target_ignores_label_sign_witness :
  PotentialLightningModule.loss_fn absolute_self l1_loss
    (<[3%nat := neg [rat 3 1; rat (-1) 2]]> (two_atoms [rat 3 1; rat (-1) 2]))
    (two_atoms [rat 2 1; rat 1 1]) num_atoms_two
  = PotentialLightningModule.loss_fn absolute_self l1_loss
      (two_atoms [rat 3 1; rat (-1) 2])
      (two_atoms [rat 2 1; rat 1 1]) num_atoms_two.
Proof.
  apply (absolute_target_ignores_label_sign absolute_self l1_loss
           (two_atoms [rat 3 1; rat (-1) 2])
           (two_atoms [rat 2 1; rat 1 1]) num_atoms_two
           [rat 3 1; rat (-1) 2] eq_refl eq_refl).
Defined.

Lemma zero_weight_terms_are_skipped_witness :
  PotentialLightningModule.loss_fn efs_self l1_loss
    (<[3%nat := [NaN]]> (two_atoms [rat 3 1; rat (-1) 2]))
    (<[3%nat := [rat 1 1]]> (two_atoms [rat 2 1; rat 1 1])) num_atoms_two
  = PotentialLightningModule.loss_fn efs_self l1_loss
      (two_atoms [rat 3 1; rat (-1) 2])
      (two_atoms [rat 2 1; rat 1 1]) num_atoms_two.
Proof.
  destruct (zero_weight_terms_are_skipped sqrt6
              (rat 1 1) (rat 1 1) (rat 1 10) (rat 0 1)
              (rat 0 1) (rat 1 1) "huber_loss" None (rat 1 1000) 1000
              (rat 1 100) false false None efs_self l1_loss
              (two_atoms [rat 3 1; rat (-1) 2])
              (two_atoms [rat 2 1; rat 1 1]) num_atoms_two eq_refl)
    as (_ & Hsite).
  apply (proj1 (Hsite eq_refl)).
Defined.

Lemma nan_label_makes_total_loss_nan_witness :
  is_ok (run_loss_fn strict_module (two_atoms [rat 3 1; NaN])
           (two_atoms [rat 2 1; rat 9 1]) num_atoms_two)
  ∧ PotentialLightningModule.Total_Loss
      (get (run_loss_fn strict_module (two_atoms [rat 3 1; NaN])
              (two_atoms [rat 2 1; rat 9 1]) num_atoms_two) I)
    = NaN.
Proof.
  split; [exact I|].
  apply (nan_label_makes_total_loss_nan sqrt6
           (rat 1 1) (rat 1 1) (rat 0 1) (rat 1 10)
           (rat 0 1) (rat 1 1) "mse_loss" None (rat 1 1000) 1000 (rat 1 100)
           false None strict_self
           (two_atoms [rat 3 1; NaN]) (two_atoms [rat 2 1; rat 9 1])
           num_atoms_two [rat 3 1; NaN] [rat 2 1; rat 9 1] _
           eq_refl ltac:(compute_done) eq_refl eq_refl eq_refl
           ltac:(apply list_elem_of_further, list_elem_of_here) eq_refl).
Defined.

Lemma potential_step_arity_witness :
  (∃ msg,
     Potential.step symbreak_self efs_batch site_wise_output
     = Raise (ValueError msg))
  ∧ ∃ e f s h rest,
      take 4 site_wise_output = e :: f :: s :: h :: rest
      ∧ Potential.step efs_self efs_batch (take 4 site_wise_output)
        = (λ r, (r, length e))
            <$> PotentialLightningModule.loss_fn efs_self
                  (PotentialLightningModule.self_loss efs_self)
                  (Potential.targets efs_batch) (e :: f :: s :: rest)
                  (Potential.batch_num_nodes efs_batch).
Proof.
  split.
  - apply (proj1 (potential_step_arity symbreak_self efs_batch
                    site_wise_output)).
    left. simpl. lia.
  - destruct (proj2 (potential_step_arity efs_self efs_batch
                       (take 4 site_wise_output)) eq_refl eq_refl)
      as (e & f & s & h & rest & Houtput & _ & Hstep).
    exists e, f, s, h, rest. split; [exact Houtput | exact Hstep].
Defined.

Lemma xavier_init_requirements_witness :
  Forall (λ p : string * list nat,
            endswith p.1 ".bias" = true ∨ (2 ≤ length p.2)%nat
            ∨ ∃ fan, p.2 = [fan] ∧ fan ≠ 0%nat) vector_model
  ∧ xavier_init sqrt6 scalar_model (rat 1 1) "uniform"
    = Raise (IndexError "tuple index out of range").
Proof.
  split.
  - apply (proj1 (xavier_init_requirements sqrt6 sqrt6_0
                    vector_model (rat 1 1) "uniform")
             (get (xavier_init sqrt6 vector_model (rat 1 1) "uniform") I)
             eq_refl).
  - apply (proj2 (xavier_init_requirements sqrt6 sqrt6_0
                    scalar_model (rat 1 1) "uniform")
             [("dense.bias", [4%nat])] "readout.scale" []
             [("dense.weight", [4; 4]%nat)]).
    + by left.
    + reflexivity.
    + apply Forall_cons_2; [reflexivity | apply Forall_nil_2].
    + reflexivity.
    + reflexivity.
Defined.

Lemma on_load_checkpoint_completes_witness :
  ∃ ckpt',
    PotentialLightningModule.on_load_checkpoint live_state_dict
      saved_checkpoint = Ok ckpt'
    ∧ PotentialLightningModule.on_load_checkpoint live_state_dict ckpt'
      = Ok ckpt'.
Proof.
  destruct (on_load_checkpoint_completes live_state_dict saved_checkpoint
              {[ "layer.weight" := 10%Z; "layer.bias" := 20%Z ]} eq_refl)
    as (ckpt' & Hload & _ & _ & Hagain & _).
  exists ckpt'. split; [exact Hload | exact Hagain].
Defined.

Lemma on_load_checkpoint_without_state_dict_witness :
  PotentialLightningModule.on_load_checkpoint live_state_dict bare_checkpoint
  = Raise (KeyError "state_dict").
Proof.
  apply (proj2 (on_load_checkpoint_without_state_dict live_state_dict
                  bare_checkpoint eq_refl)).
  compute_done.
Defined.

Lemma get_graph_node_features_witness :
  ∃ types,
    ndata (get water_graph I).1
    = {[ "attr" := water_Z;
         "node_type" := {| Array.shape := [3%nat];
                           Array.data := Float.of_nat <$> types |};
         "pos" := water_cart_coords ]}
    ∧ Forall2 (λ s i,
                 ["H"; "O"] !! i = Some (specie_symbol s)
                 ∧ ∀ j, (j < i)%nat → ["H"; "O"] !! j ≠ Some (specie_symbol s))
              water types.
Proof.
  destruct (get_graph_node_features water water_src water_dst water_images
              water_lattice water_Z ["H"; "O"] water_cart_coords
              (get water_graph I).1 (get water_graph I).2 eq_refl)
    as (_ & _ & _ & types & Hndata & Htypes).
  exists types. split; [exact Hndata | exact Htypes].
Defined.

Lemma get_graph_requirements_witness :
  valid_site_indices water water_src
  ∧ valid_site_indices water water_dst
  ∧ ∃ rest, Array.shape water_lattice = 1%nat :: rest.
Proof.
  destruct (get_graph_requirements water water_src water_dst water_images
              water_lattice water_Z ["H"; "O"] water_cart_coords
              (get water_graph I).1 (get water_graph I).2 eq_refl)
    as (_ & _ & _ & Hsrc & Hdst & _ & _ & _ & Hlattice).
  split; [exact Hsrc|]. split; [exact Hdst|]. apply Hlattice. done.
Defined.

End EvaluatedFurther.
